(** * portfolio-lit: window manager core

    A shallow embedding of the window manager of the simulated desktop:
    - [src/utils/window-manager.js]: the geometry helpers
      ([constrainPosition], [isOverlapping], [calculateResize], ...);
    - [src/context/app-state.js]: the [AppState] store and its commands
      ([openWindow], [closeWindow], [focusWindow], [minimizeWindow], ...);
    - the persistence pair [saveToLocalStorage] / [loadFromLocalStorage];
    - [src/utils/constants.js]: the constants the above use.

    Pixel coordinates, sizes and z-indices are integers ([Z]).  JavaScript
    objects that the store treats as records are records here; the values
    produced by [JSON.parse] are an inductive type [json]; a [Map] read back
    from storage is an insertion-ordered association list, and the typed
    icon map of a running store is a [gmap]. *)

From Stdlib Require Import ZArith Lia.
From stdpp Require Import base list strings gmap fin_maps.

Local Open Scope string_scope.
Local Open Scope Z_scope.
Local Open Scope list_scope.

(** ** Constants ([constants.js]) *)

Definition TOPBAR_HEIGHT : Z := 32.
Definition APPBAR_HEIGHT : Z := 48.
Definition WINDOW_MIN_WIDTH : Z := 300.
Definition WINDOW_MIN_HEIGHT : Z := 200.
Definition WINDOW_INITIAL_WIDTH : Z := 600.
Definition WINDOW_INITIAL_HEIGHT : Z := 400.
Definition WINDOW_BASE : Z := 100.
Definition WINDOW_CASCADE_OFFSET : Z := 30.
Definition WINDOW_CASCADE_MAX : Z := 200.
Definition WINDOW_SNAP_THRESHOLD : Z := 20.

(** [Object.values(THEMES)] *)
Definition THEMES : list string := ["dark"; "light"; "macos"; "glass"; "custom"].
Definition THEMES_DARK : string := "dark".

(** ** Geometry ([window-manager.js]) *)

Record Position := mkPosition { x : Z; y : Z }.
Record Size := mkSize { width : Z; height : Z }.

(** The [{position, size}] part of a window, which is all the geometry
    helpers read of their [windowData] arguments. *)
Module Rect.
Record t := mk { position : Position; size : Size }.
End Rect.

#[global] Instance Position_eq_dec : EqDecision Position.
Proof. solve_decision. Defined.
#[global] Instance Size_eq_dec : EqDecision Size.
Proof. solve_decision. Defined.

Definition constrainPosition (position : Position) (size bounds : Size) : Position :=
  let minX := 0 in
  let minY := 0 in
  let maxX := Z.max (width bounds - width size) 0 in
  let maxY := Z.max (height bounds - height size) 0 in
  {| x := Z.max minX (Z.min (x position) maxX);
     y := Z.max minY (Z.min (y position) maxY) |}.

Definition snapToEdge (position : Position) (size bounds : Size)
    (threshold : option Z) : Position :=
  let threshold := default WINDOW_SNAP_THRESHOLD threshold in
  let x0 := x position in
  let y0 := y position in
  let x1 := if (x0 <? threshold) && (0 <=? x0) then 0 else x0 in
  let x2 := if (width bounds - width size - threshold <? x1)
               && (x1 <=? width bounds - width size)
            then width bounds - width size else x1 in
  let y1 := if (y0 <? threshold) && (0 <=? y0) then 0 else y0 in
  let y2 := if (height bounds - height size - threshold <? y1)
               && (y1 <=? height bounds - height size)
            then height bounds - height size else y1 in
  {| x := x2; y := y2 |}.

Definition r_left (w : Rect.t) : Z := x (Rect.position w).
Definition r_right (w : Rect.t) : Z := x (Rect.position w) + width (Rect.size w).
Definition r_top (w : Rect.t) : Z := y (Rect.position w).
Definition r_bottom (w : Rect.t) : Z := y (Rect.position w) + height (Rect.size w).

Definition isOverlapping (windowData1 windowData2 : Rect.t) : bool :=
  negb ((r_right windowData1 <? r_left windowData2)
        || (r_left windowData1 >? r_right windowData2)
        || (r_bottom windowData1 <? r_top windowData2)
        || (r_top windowData1 >? r_bottom windowData2)).

Definition getAvailableDesktopBounds (desktopSize : Size) : Size :=
  {| width := width desktopSize;
     height := height desktopSize - TOPBAR_HEIGHT - APPBAR_HEIGHT |}.

(** [maxSize] absent is [{Infinity, Infinity}]: no upper clamp. *)
Definition constrainSize (size : Size) (minSize maxSize : option Size) : Size :=
  let minSize := default (mkSize WINDOW_MIN_WIDTH WINDOW_MIN_HEIGHT) minSize in
  let cap (v : Z) (m : option Z) := match m with Some u => Z.min v u | None => v end in
  {| width := Z.max (width minSize) (cap (width size) (width <$> maxSize));
     height := Z.max (height minSize) (cap (height size) (height <$> maxSize)) |}.

Definition cascadeOffset (count : nat) : Z :=
  (Z.of_nat count * WINDOW_CASCADE_OFFSET) mod WINDOW_CASCADE_MAX.

(** [String.prototype.includes]: [needle] occurs somewhere in [s]. *)
Fixpoint includes (needle s : string) : bool :=
  String.prefix needle s
  || match s with
     | EmptyString => false
     | String _ rest => includes needle rest
     end.

(** The eight resize handles of a window and the label each one passes
    to [calculateResize]. *)
Inductive Handle := H_n | H_s | H_e | H_w | H_ne | H_nw | H_se | H_sw.

Definition handle_label (h : Handle) : string :=
  match h with
  | H_n => "n" | H_s => "s" | H_e => "e" | H_w => "w"
  | H_ne => "ne" | H_nw => "nw" | H_se => "se" | H_sw => "sw"
  end.

(** [minSize] is an optional argument whose default is the minimum
    window size. *)
Definition calculateResize (handle : string) (startPos currentPos : Position)
    (originalWindowData : Rect.t) (minSize : option Size) : Rect.t :=
  let minSize := default (mkSize WINDOW_MIN_WIDTH WINDOW_MIN_HEIGHT) minSize in
  let deltaX := x currentPos - x startPos in
  let deltaY := y currentPos - y startPos in
  let opos := Rect.position originalWindowData in
  let osize := Rect.size originalWindowData in
  let '(x1, width1) :=
    if includes "e" handle then
      (x opos, Z.max (width minSize) (width osize + deltaX))
    else if includes "w" handle then
      let newWidth := Z.max (width minSize) (width osize - deltaX) in
      let widthDiff := width osize - newWidth in
      (x opos + widthDiff, newWidth)
    else (x opos, width osize) in
  let '(y1, height1) :=
    if includes "s" handle then
      (y opos, Z.max (height minSize) (height osize + deltaY))
    else if includes "n" handle then
      let newHeight := Z.max (height minSize) (height osize - deltaY) in
      let heightDiff := height osize - newHeight in
      (y opos + heightDiff, newHeight)
    else (y opos, height osize) in
  {| Rect.position := {| x := x1; y := y1 |};
     Rect.size := {| width := width1; height := height1 |} |}.

(** ** Values read back by [JSON.parse] *)

#[warnings="-register-all"]
Inductive json :=
  | JNull
  | JBool (b : bool)
  | JNum (n : Z)
  | JStr (s : string)
  | JArr (items : list json)
  | JObj (fields : list (string * json)).

(** A JavaScript value that may be [undefined]. *)
Definition jsval := option json.

(** ToBoolean, as [!v], [a || b] and [a && b] use it. *)
Definition truthy (v : jsval) : bool :=
  match v with
  | None | Some JNull => false
  | Some (JBool b) => b
  | Some (JNum n) => negb (n =? 0)
  | Some (JStr s) => negb (String.eqb s "")
  | Some (JArr _) | Some (JObj _) => true
  end.

(** [a || b] where [a] is an optional string. *)
Definition or_string (a : option string) (b : string) : string :=
  match a with
  | Some s => if String.eqb s "" then b else s
  | None => b
  end.

(** ** The store ([app-state.js]) *)

Record Window := mkWindow {
  id : string;
  title : string;
  component : string;
  position : Position;
  size : Size;
  zIndex : Z;
  isMinimized : bool;
  isFocused : bool;
  data : json;
  _isNewlyOpened : bool
}.

(** The object spreads [{...w, field: value}] of the store. *)
Definition with_isFocused (b : bool) (w : Window) : Window :=
  mkWindow (id w) (title w) (component w) (position w) (size w) (zIndex w)
           (isMinimized w) b (data w) (_isNewlyOpened w).
Definition with_isMinimized (b : bool) (w : Window) : Window :=
  mkWindow (id w) (title w) (component w) (position w) (size w) (zIndex w)
           b (isFocused w) (data w) (_isNewlyOpened w).
Definition with_zIndex (z : Z) (w : Window) : Window :=
  mkWindow (id w) (title w) (component w) (position w) (size w) z
           (isMinimized w) (isFocused w) (data w) (_isNewlyOpened w).
Definition with_position (p : Position) (w : Window) : Window :=
  mkWindow (id w) (title w) (component w) p (size w) (zIndex w)
           (isMinimized w) (isFocused w) (data w) (_isNewlyOpened w).
Definition with_size (sz : Size) (w : Window) : Window :=
  mkWindow (id w) (title w) (component w) (position w) sz (zIndex w)
           (isMinimized w) (isFocused w) (data w) (_isNewlyOpened w).

(** The [config] argument of [openWindow]; every property is optional. *)
Module Config.
Record t := mk {
  id : option string;
  title : option string;
  component : option string;
  position : option Position;
  size : option Size;
  data : option json
}.
End Config.

Record State := mkState {
  theme : string;
  windows : list Window;
  nextZIndex : Z;
  desktopSize : Size;
  focusedWindowId : option string;
  iconPositions : gmap string Position;
  selectedIcons : gset string
}.

(** [initialState]; the desktop size is that of the browser window. *)
Definition initialState (innerWidth innerHeight : Z) : State :=
  {| theme := THEMES_DARK;
     windows := [];
     nextZIndex := WINDOW_BASE;
     desktopSize := mkSize innerWidth innerHeight;
     focusedWindowId := None;
     iconPositions := ∅;
     selectedIcons := ∅ |}.

(** [updateState({windows, nextZIndex, focusedWindowId})] and its shorter
    forms: the listed fields are replaced, the others kept. *)
Definition updateState3 (ws : list Window) (nz : Z) (fid : option string)
    (s : State) : State :=
  mkState (theme s) ws nz (desktopSize s) fid (iconPositions s) (selectedIcons s).
Definition updateState2 (ws : list Window) (fid : option string) (s : State) : State :=
  updateState3 ws (nextZIndex s) fid s.
Definition updateState1 (ws : list Window) (s : State) : State :=
  updateState3 ws (nextZIndex s) (focusedWindowId s) s.

(** [_updateWindowWith(id, updateFn)] *)
Definition _updateWindowWith (i : string) (updateFn : Window -> Window)
    (s : State) : list Window :=
  (fun w => if decide (id w = i) then updateFn w else w) <$> windows s.

(** [_updateWindow(id, updates)]; [updates] stands for the spread
    [{...w, ...updates}]. *)
Definition _updateWindow (i : string) (updates : Window -> Window)
    (s : State) : list Window :=
  (fun w => if decide (id w = i) then updates w else w) <$> windows s.

Definition getDefaultPosition (s : State) : Position :=
  let offset := cascadeOffset (length (windows s)) in
  {| x := 100 + offset; y := 100 + offset |}.

(** [openWindow(config)]; [generated] is what [generateWindowId()] returns
    when it is called. *)
Definition openWindow_id (config : Config.t) (generated : string) : string :=
  or_string (Config.id config) generated.

Definition defaultWindow (config : Config.t) (generated : string) (s : State) : Window :=
  {| id := openWindow_id config generated;
     title := or_string (Config.title config) "Untitled";
     component := or_string (Config.component config) "div";
     position := default (getDefaultPosition s) (Config.position config);
     size := default (mkSize WINDOW_INITIAL_WIDTH WINDOW_INITIAL_HEIGHT)
                     (Config.size config);
     zIndex := nextZIndex s;
     isMinimized := false;
     isFocused := true;
     data := if truthy (Config.data config)
             then default (JObj []) (Config.data config) else JObj [];
     _isNewlyOpened := true |}.

Definition openWindow (config : Config.t) (generated : string) (s : State) : State :=
  let ws := (with_isFocused false <$> windows s)
              ++ [defaultWindow config generated s] in
  updateState3 ws (nextZIndex s + 1) (Some (openWindow_id config generated)) s.

(** The elements of an array are object references; a reference is the
    element's index, kept next to the element it denotes. *)
Definition indexed (ws : list Window) : list (nat * Window) := imap pair ws.

(** [arr.reduce((max, w) => w.zIndex > max.zIndex ? w : max, init)] *)
Definition reduce_max (arr : list (nat * Window)) (init : nat * Window) : nat * Window :=
  foldl (fun max w => if zIndex w.2 >? zIndex max.2 then w else max) init arr.
#[global] Arguments reduce_max : simpl never.

(** [nextWindow.isFocused = true]: the assignment goes through the
    reference, so it changes the element of the array the reference
    came from. *)
Definition focus_at (ref : nat) (ws : list Window) : list Window :=
  alter (with_isFocused true) ref ws.

Definition closeWindow (i : string) (s : State) : State :=
  let ws := filter (fun w => id w <> i) (windows s) in
  match indexed ws with
  | first :: _ =>
      if decide (focusedWindowId s = Some i) then
        let nextWindow := reduce_max (indexed ws) first in
        updateState2 (focus_at nextWindow.1 ws) (Some (id nextWindow.2)) s
      else updateState2 ws (focusedWindowId s) s
  | [] => updateState2 ws None s
  end.

(** The callback of [focusWindow(i)]'s [map], [next] being the counter. *)
Definition focus_one (i : string) (next : Z) (w : Window) : Window :=
  if decide (id w = i)
  then with_isMinimized false (with_zIndex next (with_isFocused true w))
  else with_isFocused false w.

#[global] Arguments focus_one : simpl never.

Definition focusWindow (i : string) (s : State) : State :=
  let ws := focus_one i (nextZIndex s) <$> windows s in
  updateState3 ws (nextZIndex s + 1) (Some i) s.

Definition minimizeWindow (i : string) (s : State) : State :=
  let ws := _updateWindow i
              (fun w => with_isFocused false (with_isMinimized true w)) s in
  let visibleWindows := filter (fun r => isMinimized r.2 = false) (indexed ws) in
  match visibleWindows with
  | first :: _ =>
      let nextWindow := reduce_max visibleWindows first in
      updateState2 (focus_at nextWindow.1 ws) (Some (id nextWindow.2)) s
  | [] => updateState2 ws None s
  end.

Definition restoreWindow (i : string) (s : State) : State := focusWindow i s.

Definition maximizeWindow (i : string) (s : State) : State :=
  let ws := _updateWindowWith i
    (fun w => with_size
                {| width := width (desktopSize s);
                   height := height (desktopSize s) - 80 |}
                (with_position {| x := 0; y := 0 |} w)) s in
  updateState1 ws s.

(** [Math.floor(n * 0.7)] for an integer [n] below 2^53 in magnitude.
    The constant 0.7 is the double [double_0_7 / 2^53]; the product is
    rounded to 53 significant bits, ties to even, before the floor is
    taken, which makes the result one less than [7 * n / 10] for some [n]
    (125 for [n = 180]). *)
Definition double_0_7 : Z := 6305039478318694.

Definition round_to_53_bits (p : Z) : Z :=
  let b := Z.log2 p in
  if b <=? 52 then p
  else
    let shift := b - 52 in
    let q := Z.shiftr p shift in
    let rem := p mod 2 ^ shift in
    let half := 2 ^ (shift - 1) in
    let q' := if (half <? rem) || ((rem =? half) && Z.odd q) then q + 1 else q in
    q' * 2 ^ shift.

Definition floor_times_0_7 (n : Z) : Z :=
  let m := round_to_53_bits (Z.abs n * double_0_7) in
  if 0 <=? n then m / 2 ^ 53 else - ((m + 2 ^ 53 - 1) / 2 ^ 53).

(** [Math.floor] of an integer halved is [Z.div] by 2. *)
Definition centerWindow (i : string) (s : State) : State :=
  let halfWidth := width (desktopSize s) / 2 in
  let centerHeight := floor_times_0_7 (height (desktopSize s) - 80) in
  let x0 := (width (desktopSize s) - halfWidth) / 2 in
  let y0 := 80 in
  let ws := _updateWindow i
    (fun w => with_size {| width := halfWidth; height := centerHeight |}
                (with_position {| x := x0; y := y0 |} w)) s in
  updateState1 ws s.

Definition updateWindowPosition (i : string) (p : Position) (s : State) : State :=
  updateState1 (_updateWindow i (with_position p) s) s.

Definition updateWindowSize (i : string) (sz : Size) (s : State) : State :=
  updateState1 (_updateWindow i (with_size sz) s) s.

(** The commands of the store that act on windows. *)
Inductive Command :=
  | OpenWindow (config : Config.t) (generated : string)
  | CloseWindow (i : string)
  | FocusWindow (i : string)
  | MinimizeWindow (i : string)
  | RestoreWindow (i : string)
  | MaximizeWindow (i : string)
  | CenterWindow (i : string)
  | UpdateWindowPosition (i : string) (p : Position)
  | UpdateWindowSize (i : string) (sz : Size).

Definition exec (c : Command) (s : State) : State :=
  match c with
  | OpenWindow config generated => openWindow config generated s
  | CloseWindow i => closeWindow i s
  | FocusWindow i => focusWindow i s
  | MinimizeWindow i => minimizeWindow i s
  | RestoreWindow i => restoreWindow i s
  | MaximizeWindow i => maximizeWindow i s
  | CenterWindow i => centerWindow i s
  | UpdateWindowPosition i p => updateWindowPosition i p s
  | UpdateWindowSize i sz => updateWindowSize i sz s
  end.

(** Running a sequence of commands, first command first. *)
Definition run (cs : list Command) (s : State) : State :=
  foldl (fun st c => exec c st) s cs.

(** States reachable from the initial empty state by commands that each
    satisfy the guard [G] in the state they are issued in. *)
Inductive reachable_by (G : State -> Command -> Prop) : State -> Prop :=
  | reachable_init innerWidth innerHeight :
      reachable_by G (initialState innerWidth innerHeight)
  | reachable_step s c :
      reachable_by G s -> G s c -> reachable_by G (exec c s).

Definition any_command (s : State) (c : Command) : Prop := True.

(** Reachable by any sequence of store commands. *)
Definition reachable : State -> Prop := reachable_by any_command.

(** Every command of the sequence satisfies [G] in the state it is
    issued in. *)
Fixpoint guarded_run (G : State -> Command -> Prop) (cs : list Command)
    (s : State) : Prop :=
  match cs with
  | [] => True
  | c :: cs' => G s c /\ guarded_run G cs' (exec c s)
  end.

(** ** Persistence ([saveToLocalStorage], [loadFromLocalStorage]) *)

(** The text kept under the storage key, described by what [JSON.parse]
    makes of it: [Unparsable] text makes it throw ([is_empty] tells
    whether the text is the empty string, which is also falsy), and
    [Serialized v] is text, such as [JSON.stringify] writes, that it
    reads as the value [v]. *)
Inductive StoredText :=
  | Unparsable (is_empty : bool)
  | Serialized (v : json).

(** The browser's [localStorage], restricted to the store's key.  Every
    access throws when storage is not [available]; [setItem] also throws
    when the quota is exceeded. *)
Record LocalStorage := mkStorage {
  available : bool;
  quota_exceeded : bool;
  item : option StoredText
}.

(** [None] stands for a thrown exception. *)
Definition getItem (st : LocalStorage) : option (option StoredText) :=
  if available st then Some (item st) else None.
Definition setItem (txt : StoredText) (st : LocalStorage) : option LocalStorage :=
  if available st && negb (quota_exceeded st)
  then Some (mkStorage (available st) (quota_exceeded st) (Some txt))
  else None.
Definition removeItem (st : LocalStorage) : option LocalStorage :=
  if available st
  then Some (mkStorage (available st) (quota_exceeded st) None)
  else None.

(** [try { localStorage.removeItem(key) } catch { ... }] *)
Definition try_removeItem (st : LocalStorage) : LocalStorage :=
  default st (removeItem st).

(** How the store's records appear as JSON values. *)
Definition json_of_position (p : Position) : json :=
  JObj [("x", JNum (x p)); ("y", JNum (y p))].
Definition json_of_size (sz : Size) : json :=
  JObj [("width", JNum (width sz)); ("height", JNum (height sz))].
Definition json_of_window (w : Window) : json :=
  JObj [("id", JStr (id w)); ("title", JStr (title w));
        ("component", JStr (component w));
        ("position", json_of_position (position w));
        ("size", json_of_size (size w));
        ("zIndex", JNum (zIndex w));
        ("isMinimized", JBool (isMinimized w));
        ("isFocused", JBool (isFocused w));
        ("data", data w);
        ("_isNewlyOpened", JBool (_isNewlyOpened w))].

(** [Array.from(map.entries())] of the icon map: one [[appId, {x, y}]]
    pair per entry. *)
Definition json_of_entry (e : string * Position) : json :=
  JArr [JStr e.1; json_of_position e.2].

Definition stateToSave (s : State) : json :=
  JObj [("theme", JStr (theme s));
        ("windows", JArr (json_of_window <$> windows s));
        ("iconPositions", JArr (json_of_entry <$> map_to_list (iconPositions s)))].

(** A failed [setItem] is caught and logged; the stored text is then
    what it was. *)
Definition saveToLocalStorage (s : State) (st : LocalStorage) : LocalStorage :=
  default st (setItem (Serialized (stateToSave s)) st).

(** Property access [o.name] on a parsed value. *)
Fixpoint assoc (name : string) (fields : list (string * json)) : jsval :=
  match fields with
  | [] => None
  | (k, v) :: rest => if String.eqb k name then Some v else assoc name rest
  end.

Definition get_prop (name : string) (o : json) : jsval :=
  match o with
  | JObj fields => assoc name fields
  | _ => None
  end.

(** [typeof v === 'object'] ([null] included, as in JavaScript). *)
Definition typeof_object (v : json) : bool :=
  match v with
  | JNull | JArr _ | JObj _ => true
  | _ => false
  end.

(** [Object.values(THEMES).includes(v)] *)
Definition THEMES_includes (v : jsval) : bool :=
  match v with
  | Some (JStr t) => bool_decide (t ∈ THEMES)
  | _ => false
  end.

(** A [Map] whose keys and values are parsed values: the entries in
    insertion order.  Keys are compared as [Map] does (SameValueZero):
    primitives by value, while two parsed objects are never the same
    object. *)
Definition JsMap := list (jsval * jsval).

Definition sameValueZero (a b : jsval) : bool :=
  match a, b with
  | None, None => true
  | Some JNull, Some JNull => true
  | Some (JBool p), Some (JBool q) => Bool.eqb p q
  | Some (JNum n), Some (JNum m) => n =? m
  | Some (JStr s), Some (JStr t) => String.eqb s t
  | _, _ => false
  end.

Fixpoint Map_set (k v : jsval) (m : JsMap) : JsMap :=
  match m with
  | [] => [(k, v)]
  | (k', v') :: rest =>
      if sameValueZero k' k then (k', v) :: rest
      else (k', v') :: Map_set k v rest
  end.

Fixpoint Map_get (k : jsval) (m : JsMap) : option jsval :=
  match m with
  | [] => None
  | (k', v') :: rest => if sameValueZero k' k then Some v' else Map_get k rest
  end.

(** One item of the iterable given to [new Map]: it must be an object,
    and its properties [0] and [1] are the key and the value. *)
Definition entry_of_item (it : json) : option (jsval * jsval) :=
  match it with
  | JArr l => Some (l !! 0%nat, l !! 1%nat)
  | JObj fields => Some (assoc "0" fields, assoc "1" fields)
  | _ => None
  end.

(** [new Map(items)]; [None] is the [TypeError] thrown at an item that is
    not an object. *)
Definition new_Map (items : list json) : option JsMap :=
  foldl (fun acc it =>
           m ← acc; e ← entry_of_item it; Some (Map_set e.1 e.2 m))
        (Some []) items.

(** The state object while it is loaded: [windows] and [iconPositions]
    hold whatever the stored text gave. *)
Module Dyn.
Record t := mk {
  theme : string;
  windows : jsval;
  nextZIndex : Z;
  desktopSize : Size;
  focusedWindowId : option string;
  iconPositions : JsMap;
  selectedIcons : gset string
}.
Definition with_theme (th : string) (s : t) : t :=
  mk th (windows s) (nextZIndex s) (desktopSize s) (focusedWindowId s)
     (iconPositions s) (selectedIcons s).
Definition with_windows (ws : jsval) (s : t) : t :=
  mk (theme s) ws (nextZIndex s) (desktopSize s) (focusedWindowId s)
     (iconPositions s) (selectedIcons s).
Definition with_iconPositions (m : JsMap) (s : t) : t :=
  mk (theme s) (windows s) (nextZIndex s) (desktopSize s) (focusedWindowId s)
     m (selectedIcons s).
End Dyn.

(** [{...initialState}] as the constructor hands it to the loader. *)
Definition initialDyn (innerWidth innerHeight : Z) : Dyn.t :=
  Dyn.mk THEMES_DARK (Some (JArr [])) WINDOW_BASE (mkSize innerWidth innerHeight)
         None [] ∅.

(** The body of the [try] block once [JSON.parse] has returned [parsed];
    [inl] is a normal return and [inr] the state at the point where an
    exception is thrown. *)
Definition apply_parsed (parsed : json) (s : Dyn.t) : Dyn.t + Dyn.t :=
  if negb (truthy (Some parsed)) || negb (typeof_object parsed) then inl s
  else
    let s1 :=
      if truthy (get_prop "theme" parsed)
         && THEMES_includes (get_prop "theme" parsed)
      then match get_prop "theme" parsed with
           | Some (JStr t) => Dyn.with_theme t s
           | _ => s
           end
      else s in
    match get_prop "iconPositions" parsed with
    | Some (JArr items) =>
        match new_Map items with
        | Some m =>
            inl (Dyn.with_windows (get_prop "windows" parsed)
                   (Dyn.with_iconPositions m s1))
        | None => inr s1
        end
    | _ => inl (Dyn.with_windows (get_prop "windows" parsed) s1)
    end.

Definition loadFromLocalStorage (st : LocalStorage) (s : Dyn.t)
    : Dyn.t * LocalStorage :=
  match getItem st with
  | None => (s, try_removeItem st)
  | Some None => (s, st)
  | Some (Some (Unparsable true)) => (s, st)
  | Some (Some (Unparsable false)) => (s, try_removeItem st)
  | Some (Some (Serialized parsed)) =>
      match apply_parsed parsed s with
      | inl s' => (s', st)
      | inr s' => (s', try_removeItem st)
      end
  end.

(** Reading a loaded value back as the store's records. *)
Definition num_of (v : jsval) : option Z :=
  match v with Some (JNum n) => Some n | _ => None end.
Definition str_of (v : jsval) : option string :=
  match v with Some (JStr s) => Some s | _ => None end.
Definition bool_of (v : jsval) : option bool :=
  match v with Some (JBool b) => Some b | _ => None end.

Definition position_of_json (v : jsval) : option Position :=
  o ← v; a ← num_of (get_prop "x" o); b ← num_of (get_prop "y" o);
  Some (mkPosition a b).
Definition size_of_json (v : jsval) : option Size :=
  o ← v; a ← num_of (get_prop "width" o); b ← num_of (get_prop "height" o);
  Some (mkSize a b).
Definition window_of_json (o : json) : option Window :=
  i ← str_of (get_prop "id" o);
  t ← str_of (get_prop "title" o);
  c ← str_of (get_prop "component" o);
  p ← position_of_json (get_prop "position" o);
  sz ← size_of_json (get_prop "size" o);
  z ← num_of (get_prop "zIndex" o);
  mi ← bool_of (get_prop "isMinimized" o);
  fo ← bool_of (get_prop "isFocused" o);
  d ← get_prop "data" o;
  nw ← bool_of (get_prop "_isNewlyOpened" o);
  Some (mkWindow i t c p sz z mi fo d nw).
Definition windows_of_jsval (v : jsval) : option (list Window) :=
  match v with
  | Some (JArr items) => mapM window_of_json items
  | _ => None
  end.
Definition entry_of_jsvals (e : jsval * jsval) : option (string * Position) :=
  k ← str_of e.1; p ← position_of_json e.2; Some (k, p).
(** The map a loaded [Map] denotes: later entries would override
    earlier ones, and the order of the entries is forgotten. *)
Definition iconPositions_of_Map (m : JsMap) : option (gmap string Position) :=
  l ← mapM entry_of_jsvals m;
  Some (foldl (fun acc e => <[e.1 := e.2]> acc) ∅ l).

(** ** Example states *)

(** The window of the resize example: size 200 x 100 at (50, 50). *)
Definition example_window : Rect.t := Rect.mk (mkPosition 50 50) (mkSize 200 100).

(** A [config] that only names the window's id. *)
Definition config_id (i : string) : Config.t :=
  Config.mk (Some i) None None None None None.

Definition desktop : State := initialState 1280 800.

(** One open window, ["a"]. *)
Definition one_window : State := openWindow (config_id "a") "win-0" desktop.

(** Windows A (zIndex 5, focused) and B (zIndex 7, not focused). *)
Definition window_A : Window :=
  mkWindow "A" "About" "about-app" (mkPosition 100 100) (mkSize 600 400) 5
           false true (JObj []) true.
Definition window_B : Window :=
  mkWindow "B" "Terminal" "terminal-app" (mkPosition 130 130) (mkSize 600 400) 7
           false false (JObj []) true.
Definition state_AB : State :=
  mkState THEMES_DARK [window_A; window_B] 8 (mkSize 1280 800) (Some "A") ∅ ∅.

(** Two windows opened under the same id, then focused by that id. *)
Definition same_id_twice : list Command :=
  [OpenWindow (config_id "a") "win-0"; OpenWindow (config_id "a") "win-1";
   FocusWindow "a"].

(** Open ["a"] and ["b"], then raise ["a"]. *)
Definition open_two_raise_first : list Command :=
  [OpenWindow (config_id "a") "win-0"; OpenWindow (config_id "b") "win-1";
   FocusWindow "a"].

(** Open ["a"] and ["b"], minimize ["b"], close ["a"]. *)
Definition close_over_minimized : list Command :=
  [OpenWindow (config_id "a") "win-0"; OpenWindow (config_id "b") "win-1";
   MinimizeWindow "b"; CloseWindow "a"].

(** Open ["e"], ["b"], ["a"], ["c"], minimize ["a"], close ["c"],
    minimize ["e"]. *)
Definition two_focused : list Command :=
  [OpenWindow (config_id "e") "win-0"; OpenWindow (config_id "b") "win-1";
   OpenWindow (config_id "a") "win-2"; OpenWindow (config_id "c") "win-3";
   MinimizeWindow "a"; CloseWindow "c"; MinimizeWindow "e"].

(** Open ["a"], then focus an id that no window has. *)
Definition focus_ghost : list Command :=
  [OpenWindow (config_id "a") "win-0"; FocusWindow "ghost"].

(** Open ["a"] and ["b"], raise ["a"], close it, then minimize ["c"],
    which no window is called. *)
Definition raise_then_close : list Command :=
  [OpenWindow (config_id "a") "win-0"; OpenWindow (config_id "b") "win-1";
   FocusWindow "a"; CloseWindow "a"; MinimizeWindow "c"].

(** Storage that holds the text of [v]. *)
Definition storage_with (v : json) : LocalStorage :=
  mkStorage true false (Some (Serialized v)).
Definition empty_storage : LocalStorage := mkStorage true false None.

(** The state the constructor starts from. *)
Definition fresh_state : Dyn.t := initialDyn 1280 800.

(** Stored texts that parse: the number 5; an object with an unknown
    theme; an object whose [windows] is a string. *)
Definition payload_number : json := JNum 5.
Definition payload_unknown_theme : json :=
  JObj [("theme", JStr "neon");
        ("windows", JArr [json_of_window window_B]);
        ("iconPositions", JArr [JArr [JStr "about"; json_of_position (mkPosition 20 20)]])].
Definition payload_windows_not_list : json :=
  JObj [("theme", JStr "light"); ("windows", JStr "oops")].

(** A desktop with two windows and one placed icon. *)
Definition state_AB_icons : State :=
  mkState "glass" [window_A; window_B] 8 (mkSize 1280 800) (Some "A")
          {["about" := mkPosition 20 20]} ∅.

(** The entry of a loaded [Map] for one entry of the icon map. *)
Definition Map_entry (e : string * Position) : jsval * jsval :=
  (Some (JStr e.1), Some (json_of_position e.2)).

(** The fields of a window that the focus discipline is about. *)
Definition focus_view (w : Window) : string * bool * bool :=
  (id w, isMinimized w, isFocused w).

(** ** Command sequences and their guards *)

(** The window [closeWindow(i)] hands the focus to when [i] is the
    focused id: the first window of highest [zIndex] among those that
    remain, if any remains. *)
Definition handoff_target (i : string) (s : State) : option Window :=
  let ws := filter (fun w => id w <> i) (windows s) in
  match indexed ws with
  | first :: _ => Some (reduce_max (indexed ws) first).2
  | [] => None
  end.

(** Windows are opened under ids that are not in use. *)
Definition fresh_ids (s : State) (c : Command) : Prop :=
  match c with
  | OpenWindow config generated =>
      openWindow_id config generated ∉ id <$> windows s
  | _ => True
  end.

(** The commands under which the focus discipline is kept: windows are
    opened under ids that are not in use, focus and restore name a window
    that exists, and the focused window is closed only when the window
    next in line for the focus is not minimized. *)
Definition well_formed (s : State) (c : Command) : Prop :=
  match c with
  | OpenWindow config generated =>
      openWindow_id config generated ∉ id <$> windows s
  | FocusWindow i | RestoreWindow i => i ∈ id <$> windows s
  | CloseWindow i =>
      focusedWindowId s = Some i ->
      forall m, handoff_target i s = Some m -> isMinimized m = false
  | _ => True
  end.

(** The number of windows whose [isFocused] flag is set. *)
Definition focusedCount (s : State) : nat :=
  length (filter (fun w => isFocused w = true) (windows s)).

(** Ids and z-indices identify windows, and the counter is above every
    z-index in use. *)
Record z_inv (s : State) : Prop := mk_z_inv {
  inv_ids : NoDup (id <$> windows s);
  inv_zs : NoDup (zIndex <$> windows s);
  inv_next : forall z, z ∈ zIndex <$> windows s -> z < nextZIndex s
}.

(** A focused window is the one [focusedWindowId] names, is not
    minimized and is on top of the windows that are not minimized; and
    some window is focused whenever some window is not minimized. *)
Record focus_inv (s : State) : Prop := mk_focus_inv {
  inv_focused : forall w, w ∈ windows s -> isFocused w = true ->
      focusedWindowId s = Some (id w) /\ isMinimized w = false
      /\ forall w', w' ∈ windows s -> isMinimized w' = false ->
                     zIndex w' <= zIndex w;
  inv_some : forall w, w ∈ windows s -> isMinimized w = false ->
      exists f, f ∈ windows s /\ isFocused f = true
}.

(** ** More of the geometry helpers ([window-manager.js]) *)

Definition WINDOW_MIN_VISIBLE_PIXELS : Z := 100.

Definition isPointInWindow (point : Position) (windowData : Rect.t) : bool :=
  (x point >=? x (Rect.position windowData))
  && (x point <=? x (Rect.position windowData) + width (Rect.size windowData))
  && (y point >=? y (Rect.position windowData))
  && (y point <=? y (Rect.position windowData) + height (Rect.size windowData)).

(** [getCascadePosition(windows)]; the operands of [%] are not negative,
    so it is [mod]. *)
Definition getCascadePosition (windows : list Window) : Position :=
  let count := Z.of_nat (length windows) in
  let step := (count * WINDOW_CASCADE_OFFSET) mod WINDOW_CASCADE_MAX in
  {| x := 100 + step; y := 100 + step |}.

Definition normalizeWindowBounds (windowData : Window) (bounds : Size) : Window :=
  let x0 := x (position windowData) in
  let y0 := y (position windowData) in
  let width1 := Z.min (width (size windowData)) (width bounds) in
  let height1 := Z.min (height (size windowData)) (height bounds) in
  let x1 := if x0 + WINDOW_MIN_VISIBLE_PIXELS >? width bounds
            then width bounds - WINDOW_MIN_VISIBLE_PIXELS else x0 in
  let x2 := if x1 + width1 <? WINDOW_MIN_VISIBLE_PIXELS
            then WINDOW_MIN_VISIBLE_PIXELS - width1 else x1 in
  let y1 := if y0 + WINDOW_MIN_VISIBLE_PIXELS >? height bounds
            then height bounds - WINDOW_MIN_VISIBLE_PIXELS else y0 in
  let y2 := if y1 <? 0 then 0 else y1 in
  with_size {| width := width1; height := height1 |}
            (with_position {| x := x2; y := y2 |} windowData).

(** The part of a window's horizontal and vertical extent that lies
    inside [bounds]. *)
Definition visible_width (p : Position) (sz bounds : Size) : Z :=
  Z.min (x p + width sz) (width bounds) - Z.max (x p) 0.
Definition visible_height (p : Position) (sz bounds : Size) : Z :=
  Z.min (y p + height sz) (height bounds) - Z.max (y p) 0.

(** ** Gestures on a window (the [OSWindow] component) *)

(** A number as the drag arithmetic meets it: an integer, or [NaN] once
    an [undefined] coordinate has entered a subtraction. *)
Inductive num := Int (z : Z) | NaN.

(** [ToNumber] of a value that is a number or [undefined] ([None]). *)
Definition ToNumber (v : option Z) : num :=
  match v with Some z => Int z | None => NaN end.

Definition num_add (a b : num) : num :=
  match a, b with Int a, Int b => Int (a + b) | _, _ => NaN end.
Definition num_sub (a b : num) : num :=
  match a, b with Int a, Int b => Int (a - b) | _, _ => NaN end.
Definition Math_max (a b : num) : num :=
  match a, b with Int a, Int b => Int (Z.max a b) | _, _ => NaN end.
Definition Math_min (a b : num) : num :=
  match a, b with Int a, Int b => Int (Z.min a b) | _, _ => NaN end.

(** [a < b], [a <= b], [a > b], [a >= b]: false when either side is
    [NaN]. *)
Definition num_ltb (a b : num) : bool :=
  match a, b with Int a, Int b => a <? b | _, _ => false end.
Definition num_leb (a b : num) : bool :=
  match a, b with Int a, Int b => a <=? b | _, _ => false end.
Definition num_gtb (a b : num) : bool :=
  match a, b with Int a, Int b => a >? b | _, _ => false end.
Definition num_geb (a b : num) : bool :=
  match a, b with Int a, Int b => a >=? b | _, _ => false end.

Record NumPosition := mkNumPosition { nx : num; ny : num }.

Definition of_Position (p : Position) : NumPosition :=
  {| nx := Int (x p); ny := Int (y p) |}.

(** [constrainPosition] and [snapToEdge] on a position whose coordinates
    may be [NaN]; sizes and bounds are integers. *)
Definition constrainPosition_num (position : NumPosition) (size bounds : Size)
    : NumPosition :=
  let minX := Int 0 in
  let minY := Int 0 in
  let maxX := Math_max (Int (width bounds - width size)) (Int 0) in
  let maxY := Math_max (Int (height bounds - height size)) (Int 0) in
  {| nx := Math_max minX (Math_min (nx position) maxX);
     ny := Math_max minY (Math_min (ny position) maxY) |}.

Definition snapToEdge_num (position : NumPosition) (size bounds : Size)
    (threshold : option Z) : NumPosition :=
  let threshold := default WINDOW_SNAP_THRESHOLD threshold in
  let x0 := nx position in
  let y0 := ny position in
  let x1 := if num_ltb x0 (Int threshold) && num_geb x0 (Int 0)
            then Int 0 else x0 in
  let x2 := if num_gtb x1 (Int (width bounds - width size - threshold))
               && num_leb x1 (Int (width bounds - width size))
            then Int (width bounds - width size) else x1 in
  let y1 := if num_ltb y0 (Int threshold) && num_geb y0 (Int 0)
            then Int 0 else y0 in
  let y2 := if num_gtb y1 (Int (height bounds - height size - threshold))
               && num_leb y1 (Int (height bounds - height size))
            then Int (height bounds - height size) else y1 in
  {| nx := x2; ny := y2 |}.

(** A mouse or touch event as the drag handlers read it.  A mouse event
    has [clientX] and [clientY] and no [touches]; a touch event has
    [touches] and no [clientX], [clientY].  [None] is [undefined]. *)
Record Touch := mkTouch { touch_clientX : Z; touch_clientY : Z }.

Module Event.
Record t := mk {
  clientX : option Z;
  clientY : option Z;
  touches : option (list Touch)
}.
End Event.

(** The outcome of an expression that may throw a [TypeError]. *)
Inductive Completion (A : Type) : Type :=
| Returns (a : A)
| Throws.
Arguments Returns {A} a.
Arguments Throws {A}.

(** Truthiness of a coordinate: [undefined] and [0] are falsy. *)
Definition truthy_number (v : option Z) : bool :=
  match v with Some z => bool_decide (z <> 0) | None => false end.

(** [e.touches?.[0]?.clientX] (with [proj] the property read): an absent
    list or an absent first touch gives [undefined]. *)
Definition first_touch_optional (proj : Touch -> Z) (e : Event.t) : option Z :=
  match Event.touches e with
  | None => None
  | Some [] => None
  | Some (touch :: _) => Some (proj touch)
  end.

(** [e.touches?.[0].clientX]: an absent list gives [undefined], a list
    without a first touch throws. *)
Definition first_touch (proj : Touch -> Z) (e : Event.t)
    : Completion (option Z) :=
  match Event.touches e with
  | None => Returns None
  | Some [] => Throws
  | Some (touch :: _) => Returns (Some (proj touch))
  end.

(** [_dragStart] of a drag: what was read as the pointer's coordinates,
    and where the window was. *)
Record DragStart := mkDragStart {
  start_x : option Z; start_y : option Z; windowX : Z; windowY : Z
}.

(** The [_dragStart] that [_handleDragStart] records;
    [originalEvent] is [e.detail?.originalEvent || e]. *)
Definition _handleDragStart (originalEvent : Event.t) (windowData : Window)
    : DragStart :=
  let clientX :=
    if truthy_number (Event.clientX originalEvent)
    then Event.clientX originalEvent
    else first_touch_optional touch_clientX originalEvent in
  let clientY :=
    if truthy_number (Event.clientY originalEvent)
    then Event.clientY originalEvent
    else first_touch_optional touch_clientY originalEvent in
  {| start_x := clientX; start_y := clientY;
     windowX := x (position windowData);
     windowY := y (position windowData) |}.

(** The position [_handleDrag] hands to [updateWindowPosition]. *)
Definition drag_position (dragStart : DragStart) (e : Event.t)
    (windowData : Window) (desktopSize : Size) : Completion NumPosition :=
  match (if truthy_number (Event.clientX e)
         then Returns (Event.clientX e) else first_touch touch_clientX e) with
  | Throws => Throws
  | Returns clientX =>
  match (if truthy_number (Event.clientY e)
         then Returns (Event.clientY e) else first_touch touch_clientY e) with
  | Throws => Throws
  | Returns clientY =>
      let deltaX := num_sub (ToNumber clientX) (ToNumber (start_x dragStart)) in
      let deltaY := num_sub (ToNumber clientY) (ToNumber (start_y dragStart)) in
      let newX := num_add (Int (windowX dragStart)) deltaX in
      let newY := num_add (Int (windowY dragStart)) deltaY in
      let availableBounds := getAvailableDesktopBounds desktopSize in
      let constrained :=
        constrainPosition_num {| nx := newX; ny := newY |} (size windowData)
                              availableBounds in
      Returns (snapToEdge_num constrained (size windowData) availableBounds None)
  end
  end.

(** What a call of [_handleDrag] does: nothing when no drag is in
    progress, a [TypeError], or the call
    [updateWindowPosition(id, position)]. *)
Inductive DragOutcome :=
| drag_ignored
| drag_throws
| drag_commits (i : string) (p : NumPosition).

(** [_handleDrag] of a window attached to the store; [dragging] is the
    drag in progress, if any. *)
Definition _handleDrag (dragging : option DragStart) (e : Event.t)
    (windowData : Window) (s : State) : DragOutcome :=
  match dragging with
  | None => drag_ignored
  | Some dragStart =>
      match drag_position dragStart e windowData (desktopSize s) with
      | Throws => drag_throws
      | Returns snapped => drag_commits (id windowData) snapped
      end
  end.

(** The position and size [_handleResize] hands to the store. *)
Definition resize_geometry (handle : string) (dragStart currentPos : Position)
    (originalWindow : Rect.t) (desktopSize : Size) : Rect.t :=
  let r := calculateResize handle dragStart currentPos originalWindow
             (Some (mkSize WINDOW_MIN_WIDTH WINDOW_MIN_HEIGHT)) in
  let availableBounds := getAvailableDesktopBounds desktopSize in
  let constrainedSize :=
    constrainSize (Rect.size r) (Some (mkSize WINDOW_MIN_WIDTH WINDOW_MIN_HEIGHT))
                  (Some availableBounds) in
  let constrainedPos :=
    constrainPosition (Rect.position r) constrainedSize availableBounds in
  Rect.mk constrainedPos constrainedSize.

(** [_handleResize]; [resizing] is the handle, the pointer's start and
    the original window of the resize in progress, if any. *)
Definition _handleResize (resizing : option (string * Position * Rect.t))
    (currentPos : Position) (windowData : Window) (s : State) : State :=
  match resizing with
  | None => s
  | Some (handle, dragStart, originalWindow) =>
      let g := resize_geometry handle dragStart currentPos originalWindow
                 (desktopSize s) in
      updateWindowSize (id windowData) (Rect.size g)
        (updateWindowPosition (id windowData) (Rect.position g) s)
  end.

(** ** More of the store ([app-state.js]) *)

(** [this.state.windows.find(w => w.id === id)] and its siblings. *)
Definition getWindow (i : string) (s : State) : option Window :=
  snd <$> list_find (fun w => id w = i) (windows s).
Definition getFocusedWindow (s : State) : option Window :=
  snd <$> list_find (fun w => isFocused w = true) (windows s).
Definition findWindowByComponent (c : string) (s : State) : option Window :=
  snd <$> list_find (fun w => component w = c) (windows s).

(** [updateState({theme})], [updateState({desktopSize})] and the direct
    assignments to [iconPositions] and [selectedIcons]. *)
Definition with_theme (th : string) (s : State) : State :=
  mkState th (windows s) (nextZIndex s) (desktopSize s) (focusedWindowId s)
          (iconPositions s) (selectedIcons s).
Definition with_desktopSize (sz : Size) (s : State) : State :=
  mkState (theme s) (windows s) (nextZIndex s) sz (focusedWindowId s)
          (iconPositions s) (selectedIcons s).
Definition with_iconPositions (m : gmap string Position) (s : State) : State :=
  mkState (theme s) (windows s) (nextZIndex s) (desktopSize s) (focusedWindowId s)
          m (selectedIcons s).
Definition with_selectedIcons (sel : gset string) (s : State) : State :=
  mkState (theme s) (windows s) (nextZIndex s) (desktopSize s) (focusedWindowId s)
          (iconPositions s) sel.

(** [setTheme(theme)]: the state is updated, then saved at once. *)
Definition setTheme (th : string) (s : State) (st : LocalStorage)
    : State * LocalStorage :=
  let s' := with_theme th s in
  (s', saveToLocalStorage s' st).

Definition updateDesktopSize (sz : Size) (s : State) : State :=
  with_desktopSize sz s.

Definition getIconPositions (s : State) : gmap string Position := iconPositions s.

(** [setIconPositions(positions)] copies the map and saves at once;
    [updateIconPosition] sets one entry and does not save. *)
Definition setIconPositions (positions : gmap string Position) (s : State)
    (st : LocalStorage) : State * LocalStorage :=
  let s' := with_iconPositions positions s in
  (s', saveToLocalStorage s' st).
Definition updateIconPosition (appId : string) (p : Position) (s : State) : State :=
  with_iconPositions (<[appId := p]> (iconPositions s)) s.
Definition setSelectedIcons (icons : gset string) (s : State) : State :=
  with_selectedIcons icons s.
Definition clearSelectedIcons (s : State) : State :=
  with_selectedIcons ∅ s.

(** [focusedWindowId], when set, names a window that is open and
    focused. *)
Definition focus_ref_inv (s : State) : Prop :=
  forall i, focusedWindowId s = Some i ->
    exists w, w ∈ windows s /\ id w = i /\ isFocused w = true.

(** The commands that do not move or resize windows. *)
Definition keeps_geometry (c : Command) : bool :=
  match c with
  | OpenWindow _ _ | CloseWindow _ | FocusWindow _ | MinimizeWindow _
  | RestoreWindow _ => true
  | _ => false
  end.

(** The fields of a window that only moving, resizing and closing can
    affect. *)
Definition content_view (w : Window)
    : string * string * string * Position * Size * json :=
  (id w, title w, component w, position w, size w, data w).

(** ** The app registry ([app-registry.js]) *)

Module App.
Record t := mk {
  id : string;
  name : string;
  icon : string;
  component : string;
  category : string;
  defaultSize : Size;
  description : string;
  data : json
}.
End App.

Definition APP_REGISTRY : list App.t :=
  [App.mk "about" "About Me" "👤" "about-app" "personal" (mkSize 600 500)
     "View resume, bio, and professional information" (JObj []);
   App.mk "terminal" "Terminal" "💻" "terminal-app" "utilities" (mkSize 800 600)
     "Open terminal with command line interface" (JObj []);
   App.mk "projects" "Projects" "🚀" "projects-app" "portfolio" (mkSize 900 700)
     "Browse portfolio projects and work samples" (JObj []);
   App.mk "contact" "Contact" "📧" "contact-app" "personal" (mkSize 500 600)
     "Send a message or view contact information" (JObj []);
   App.mk "settings" "Settings" "⚙️" "settings-app" "system" (mkSize 600 500)
     "Configure application preferences and themes" (JObj []);
   App.mk "files" "Files" "📁" "files-app" "utilities" (mkSize 800 600)
     "Browse and manage files" (JObj [])].

Definition getAppById (i : string) : option App.t :=
  snd <$> list_find (fun app => App.id app = i) APP_REGISTRY.
Definition getAppByComponent (c : string) : option App.t :=
  snd <$> list_find (fun app => App.component app = c) APP_REGISTRY.
Definition getAppsByCategory (c : string) : list App.t :=
  filter (fun app => App.category app = c) APP_REGISTRY.
Definition getAllAppIds : list string := App.id <$> APP_REGISTRY.
Definition appExists (i : string) : bool :=
  bool_decide (Exists (fun app => App.id app = i) APP_REGISTRY).

(** [Array.from(new Set(values))]: each value once, in the order of its
    first occurrence. *)
Definition Set_from (values : list string) : list string :=
  foldl (fun acc v => if decide (v ∈ acc) then acc else acc ++ [v]) [] values.
Definition getAllCategories : list string :=
  Set_from (App.category <$> APP_REGISTRY).

(** [getDefaultIconPositions(iconSize, startX, startY, columns)]; an
    absent argument takes its default.  [%] keeps the sign of the index and
    [Math.floor] of the quotient is [Z.div]; [columns] is not zero. *)
Definition getDefaultIconPositions (iconSize startX startY columns : option Z)
    : list (string * Position) :=
  let iconSize := default 100 iconSize in
  let startX := default 20 startX in
  let startY := default 20 startY in
  let columns := default 6 columns in
  imap (fun index app =>
          (App.id app,
           {| x := startX + Z.rem (Z.of_nat index) columns * iconSize;
              y := startY + (Z.of_nat index / columns) * iconSize |}))
       APP_REGISTRY.

(** ** A desktop icon (the [DesktopIcon] component) *)

(** What the icon dispatches to its parent. *)
Inductive IconEvent :=
  | icon_drag (appId : string) (p : Position)
  | icon_drop (appId : string) (p : Position)
  | icon_launch (appId : string) (appData : App.t).

(** [pressed] holds [_dragStart] and [_originalPosition], which are set
    together on mouse down and cleared together on mouse up. *)
Record DesktopIcon := mkDesktopIcon {
  appData : App.t;
  icon_position : Position;
  dragging : bool;
  pressed : option (Position * Position);
  _hasDragged : bool
}.

Definition icon_handleMouseDown (button clientX clientY : Z) (c : DesktopIcon)
    : DesktopIcon :=
  if negb (button =? 0) then c
  else mkDesktopIcon (appData c) (icon_position c) (dragging c)
         (Some (mkPosition clientX clientY, icon_position c)) false.

Definition icon_handleMouseMove (clientX clientY : Z) (c : DesktopIcon)
    : DesktopIcon * list IconEvent :=
  match pressed c with
  | None => (c, [])
  | Some (dragStart, originalPosition) =>
      let deltaX := clientX - x dragStart in
      let deltaY := clientY - y dragStart in
      let c1 :=
        if negb (_hasDragged c) && ((Z.abs deltaX >? 5) || (Z.abs deltaY >? 5))
        then mkDesktopIcon (appData c) (icon_position c) true (pressed c) true
        else c in
      if _hasDragged c1 then
        (c1, [icon_drag (App.id (appData c))
                {| x := x originalPosition + deltaX;
                   y := y originalPosition + deltaY |}])
      else (c1, [])
  end.

Definition icon_handleMouseUp (clientX clientY : Z) (c : DesktopIcon)
    : DesktopIcon * list IconEvent :=
  match pressed c with
  | None => (c, [])
  | Some (dragStart, originalPosition) =>
      let deltaX := clientX - x dragStart in
      let deltaY := clientY - y dragStart in
      if _hasDragged c then
        (mkDesktopIcon (appData c) (icon_position c) false None false,
         [icon_drop (App.id (appData c))
            {| x := x originalPosition + deltaX;
               y := y originalPosition + deltaY |}])
      else
        (mkDesktopIcon (appData c) (icon_position c) (dragging c) None false,
         [icon_launch (App.id (appData c)) (appData c)])
  end.

(** A run of mouse-move samples, with the events they dispatch. *)
Definition icon_moves (samples : list Position) (c : DesktopIcon)
    : DesktopIcon * list IconEvent :=
  foldl (fun acc p =>
           let r := icon_handleMouseMove (x p) (y p) acc.1 in
           (r.1, acc.2 ++ r.2))
        (c, []) samples.

Definition is_icon_drag (e : IconEvent) : Prop :=
  match e with icon_drag _ _ => True | _ => False end.

(** A sample that is more than 5 pixels from [start] along an axis. *)
Definition beyond_threshold (start p : Position) : bool :=
  (Z.abs (x p - x start) >? 5) || (Z.abs (y p - y start) >? 5).

(** ** The icon grid (the [DesktopIconsGrid] component) *)

Record IconsGrid := mkIconsGrid {
  _iconPositions : gmap string Position;
  _selectedIcons : gset string
}.

Definition grid_handleIconSelect (appId : string) (shiftKey metaKey : bool)
    (g : IconsGrid) : IconsGrid :=
  let sel := _selectedIcons g in
  let sel' :=
    if metaKey then
      if decide (appId ∈ sel) then sel ∖ {[appId]} else sel ∪ {[appId]}
    else if shiftKey then sel ∪ {[appId]}
    else {[appId]} in
  mkIconsGrid (_iconPositions g) sel'.

(** [_handleIconLaunch]; [generated] is the id [openWindow] generates
    when it opens a window.  The icon selection is cleared. *)
Definition grid_launch_config (appData : App.t) : Config.t :=
  Config.mk None (Some (App.name appData)) (Some (App.component appData)) None
            (Some (App.defaultSize appData)) (Some (App.data appData)).

Definition grid_handleIconLaunch (appData : App.t) (generated : string)
    (g : IconsGrid) (s : State) : IconsGrid * State :=
  let s' :=
    match findWindowByComponent (App.component appData) s with
    | Some existingWindowData =>
        if isMinimized existingWindowData
        then restoreWindow (id existingWindowData) s
        else focusWindow (id existingWindowData) s
    | None => openWindow (grid_launch_config appData) generated s
    end in
  (mkIconsGrid (_iconPositions g) ∅, s').

(** The grid's own [_constrainPosition]; [innerWidth] and [innerHeight]
    are the browser window's. *)
Definition grid_constrainPosition (innerWidth innerHeight : Z) (p : Position)
    : Position :=
  let minX := 0 in
  let minY := 0 in
  let maxX := innerWidth - 100 in
  let maxY := innerHeight - 150 in
  {| x := Z.max minX (Z.min (x p) maxX);
     y := Z.max minY (Z.min (y p) maxY) |}.

Definition grid_handleIconDrop (appId : string) (p : Position)
    (innerWidth innerHeight : Z) (g : IconsGrid) (s : State) (st : LocalStorage)
    : IconsGrid * State * LocalStorage :=
  let constrained := grid_constrainPosition innerWidth innerHeight p in
  let positions := <[appId := constrained]> (_iconPositions g) in
  let r := setIconPositions positions s st in
  (mkIconsGrid positions (_selectedIcons g), r.1, r.2).

(** ** An app bar icon (the [AppBarIcon] component) *)

Definition appbar_handleAppClick (windowData : Window) (s : State) : State :=
  if isMinimized windowData || negb (isFocused windowData)
  then restoreWindow (id windowData) s
  else minimizeWindow (id windowData) s.

Definition appbar_handleCloseClick (windowData : Window) (s : State) : State :=
  closeWindow (id windowData) s.

(** The number of open windows that show the component [c]. *)
Definition windows_of_component (c : string) (s : State) : nat :=
  length (filter (fun w => component w = c) (windows s)).

(** * Properties *)

(** ** Geometry *)

Section Geometry.

Lemma clamp_range (v hi : Z) :
  0 <= hi -> 0 <= Z.max 0 (Z.min v hi) <= hi.
Proof. lia. Qed.

Lemma clamp_fixed (v hi : Z) :
  0 <= v <= hi -> Z.max 0 (Z.min v hi) = v.
Proof. lia. Qed.

(** C7. [constrainPosition] clamps [x] into [[0, max(bounds.width -
    size.width, 0)]] and [y] into [[0, max(bounds.height - size.height,
    0)]]: the result is in that range, a coordinate already in the range
    is kept, one below it becomes 0 and one above it becomes the upper
    end; and constraining a constrained position changes nothing. *)
Theorem constrainPosition_idempotent (p : Position) (s b : Size) :
  constrainPosition (constrainPosition p s b) s b = constrainPosition p s b
  /\ 0 <= x (constrainPosition p s b) <= Z.max (width b - width s) 0
  /\ 0 <= y (constrainPosition p s b) <= Z.max (height b - height s) 0
  /\ (0 <= x p <= Z.max (width b - width s) 0 ->
      x (constrainPosition p s b) = x p)
  /\ (0 <= y p <= Z.max (height b - height s) 0 ->
      y (constrainPosition p s b) = y p)
  /\ (x p < 0 -> x (constrainPosition p s b) = 0)
  /\ (y p < 0 -> y (constrainPosition p s b) = 0)
  /\ (Z.max (width b - width s) 0 < x p ->
      x (constrainPosition p s b) = Z.max (width b - width s) 0)
  /\ (Z.max (height b - height s) 0 < y p ->
      y (constrainPosition p s b) = Z.max (height b - height s) 0).
Proof.
  assert (Hx : 0 <= x (constrainPosition p s b) <= Z.max (width b - width s) 0)
    by (apply clamp_range; lia).
  assert (Hy : 0 <= y (constrainPosition p s b) <= Z.max (height b - height s) 0)
    by (apply clamp_range; lia).
  split; [| split; [done | split; [done |]]].
  - unfold constrainPosition at 1. cbv zeta.
    rewrite (clamp_fixed _ _ Hx), (clamp_fixed _ _ Hy).
    by destruct (constrainPosition p s b).
  - clear Hx Hy. unfold constrainPosition. cbv zeta. cbn [x y].
    split; [| split; [| split; [| split; [| split]]]]; intros H; lia.
Qed.

Lemma constrainPosition_idempotent_witness :
  constrainPosition (mkPosition 30 (-5)) (mkSize 200 100) (mkSize 800 600)
  = mkPosition 30 0.
Proof.
  destruct (constrainPosition_idempotent (mkPosition 30 (-5)) (mkSize 200 100)
              (mkSize 800 600)) as (_ & _ & _ & Hx & _ & _ & Hy & _).
  destruct (constrainPosition _ _ _) as [cx cy]. cbn [x y] in Hx, Hy.
  rewrite Hx, Hy; [done | simpl; lia | simpl; lia].
Defined.

(** C8. [isOverlapping] is the negation of the four separation tests,
    each a strict comparison, so two rectangles of non-negative width that
    touch along a vertical edge ([a.right = b.left], with vertical extents
    that meet) are reported as overlapping. *)
Theorem isOverlapping_touching_edge (a b : Rect.t) :
  (isOverlapping a b = true <->
     ~ (r_right a < r_left b \/ r_left a > r_right b
        \/ r_bottom a < r_top b \/ r_top a > r_bottom b))
  /\ (r_right a = r_left b ->
      0 <= width (Rect.size a) -> 0 <= width (Rect.size b) ->
      ~ r_bottom a < r_top b -> ~ r_top a > r_bottom b ->
      isOverlapping a b = true).
Proof.
  assert (Hiff : isOverlapping a b = true <->
     ~ (r_right a < r_left b \/ r_left a > r_right b
        \/ r_bottom a < r_top b \/ r_top a > r_bottom b)).
  { unfold isOverlapping. rewrite negb_true_iff, !orb_false_iff.
    rewrite !Z.ltb_ge, !Z.gtb_ltb, !Z.ltb_ge. lia. }
  split; [exact Hiff |].
  intros Hedge Hwa Hwb Hv1 Hv2. apply Hiff.
  unfold r_right, r_left in *. lia.
Qed.

Lemma isOverlapping_touching_edge_witness :
  isOverlapping (Rect.mk (mkPosition 0 0) (mkSize 10 10))
                (Rect.mk (mkPosition 10 0) (mkSize 10 10)) = true.
Proof.
  apply (proj2 (isOverlapping_touching_edge
                  (Rect.mk (mkPosition 0 0) (mkSize 10 10))
                  (Rect.mk (mkPosition 10 0) (mkSize 10 10))));
    vm_compute; congruence.
Defined.

(** The handles whose label contains ['w'] are [w], [nw] and [sw]; none
    of them contains ['e']. *)
Lemma handle_w_not_e (h : Handle) :
  includes "w" (handle_label h) = true -> includes "e" (handle_label h) = false.
Proof. by destruct h. Qed.

Lemma calculateResize_west (handle : string) (startPos currentPos : Position)
    (o : Rect.t) (minSize : option Size) :
  includes "e" handle = false -> includes "w" handle = true ->
  let ms := default (mkSize WINDOW_MIN_WIDTH WINDOW_MIN_HEIGHT) minSize in
  let r := calculateResize handle startPos currentPos o minSize in
  width (Rect.size r)
    = Z.max (width ms) (width (Rect.size o) - (x currentPos - x startPos))
  /\ x (Rect.position r)
    = x (Rect.position o) + (width (Rect.size o) - width (Rect.size r)).
Proof.
  intros He Hw. unfold calculateResize. rewrite He, Hw.
  by repeat case_match.
Qed.

Lemma calculateResize_east (handle : string) (startPos currentPos : Position)
    (o : Rect.t) (minSize : option Size) :
  includes "e" handle = true ->
  let ms := default (mkSize WINDOW_MIN_WIDTH WINDOW_MIN_HEIGHT) minSize in
  let r := calculateResize handle startPos currentPos o minSize in
  width (Rect.size r)
    = Z.max (width ms) (width (Rect.size o) + (x currentPos - x startPos))
  /\ x (Rect.position r) = x (Rect.position o).
Proof.
  intros He. unfold calculateResize. rewrite He.
  by repeat case_match.
Qed.

(** C5, as stated, fails at the default [minSize] (300 x 200): dragging
    the ['e'] handle of the example window by +30px gives width 300, not
    230, and dragging the ['w'] handle gives width 300 at x = -50, not
    width 170 at x = 80. *)
Lemma calculateResize_example_default_minSize :
  let e := calculateResize "e" (mkPosition 0 0) (mkPosition 30 0) example_window None in
  let w := calculateResize "w" (mkPosition 0 0) (mkPosition 30 0) example_window None in
  width (Rect.size e) = 300 /\ width (Rect.size e) <> 230
  /\ width (Rect.size w) = 300 /\ width (Rect.size w) <> 170
  /\ x (Rect.position w) = -50 /\ x (Rect.position w) <> 80.
Proof. vm_compute. repeat split; congruence. Qed.

(** C5 (amended). For every handle whose label contains ['w'], the new
    width is [max(minSize.width, originalWidth - deltaX)] and
    [x = originalX + (originalWidth - newWidth)], so the east edge stays
    where it was; and when [minSize.width] is at most 170, a +30px x-drag
    of the example window gives width 230 at x = 50 for handle ['e'] and
    width 170 at x = 80 for handle ['w']. *)
Theorem calculateResize_west_anchors_east (h : Handle)
    (startPos currentPos : Position) (o : Rect.t) (minSize : option Size) :
  includes "w" (handle_label h) = true ->
  let ms := default (mkSize WINDOW_MIN_WIDTH WINDOW_MIN_HEIGHT) minSize in
  let r := calculateResize (handle_label h) startPos currentPos o minSize in
  (width (Rect.size r)
     = Z.max (width ms) (width (Rect.size o) - (x currentPos - x startPos))
   /\ x (Rect.position r)
     = x (Rect.position o) + (width (Rect.size o) - width (Rect.size r))
   /\ x (Rect.position o) + width (Rect.size o)
     = x (Rect.position r) + width (Rect.size r))
  /\ (x currentPos - x startPos = 30 -> width ms <= 170 ->
      let e := calculateResize "e" startPos currentPos example_window minSize in
      let w := calculateResize "w" startPos currentPos example_window minSize in
      width (Rect.size e) = 230 /\ x (Rect.position e) = 50
      /\ width (Rect.size w) = 170 /\ x (Rect.position w) = 80).
Proof.
  intros Hw ms r.
  destruct (calculateResize_west (handle_label h) startPos currentPos o minSize
              (handle_w_not_e h Hw) Hw) as [Hwidth Hx].
  fold ms r in Hwidth, Hx.
  split; [repeat split; [done | done | lia] |].
  intros Hd Hms e w.
  destruct (calculateResize_east "e" startPos currentPos example_window minSize
              eq_refl) as [H1 H2].
  destruct (calculateResize_west "w" startPos currentPos example_window minSize
              eq_refl eq_refl) as [H3 H4].
  fold ms e in H1, H2. fold ms w in H3, H4.
  rewrite H1, H2, H4, H3, Hd. simpl. lia.
Qed.

Lemma calculateResize_west_anchors_east_witness :
  let r := calculateResize "nw" (mkPosition 0 0) (mkPosition 30 0) example_window
             (Some (mkSize 100 50)) in
  width (Rect.size r) = 170 /\ x (Rect.position r) = 80.
Proof.
  pose proof (calculateResize_west_anchors_east H_nw (mkPosition 0 0)
                (mkPosition 30 0) example_window (Some (mkSize 100 50)) eq_refl)
    as [[Hwd [Hx _]] _].
  split; [exact Hwd | exact Hx].
Defined.

End Geometry.

(** ** Arrays, references and [reduce] *)

Section Arrays.

Lemma fmap_alter_same {A B} (h : A -> B) (f : A -> A) (k : nat) (l : list A) :
  (forall a, h (f a) = h a) -> h <$> alter f k l = h <$> l.
Proof.
  intros Hf. revert k. induction l as [|a l IH]; intros [|k]; simpl; try done.
  - by rewrite Hf.
  - f_equal. apply IH.
Qed.

Lemma fmap_fmap_same {A B} (h : A -> B) (g : A -> A) (l : list A) :
  (forall a, h (g a) = h a) -> h <$> (g <$> l) = h <$> l.
Proof.
  intros Hg. rewrite <- list_fmap_compose. apply list_fmap_ext.
  intros ? a _. apply Hg.
Qed.

Lemma indexed_lookup (ws : list Window) (k : nat) (w : Window) :
  (k, w) ∈ indexed ws <-> ws !! k = Some w.
Proof.
  unfold indexed. rewrite elem_of_lookup_imap. split.
  - intros (j & v & Heq & Hj). by inversion Heq; subst.
  - intros Hk. by exists k, w.
Qed.

Lemma indexed_snd (ws : list Window) : (indexed ws).*2 = ws.
Proof.
  unfold indexed. rewrite fmap_imap. apply list_eq. intros j.
  rewrite list_lookup_imap. by destruct (ws !! j).
Qed.

Lemma indexed_split (ws : list Window) L1 k m L2 :
  indexed ws = L1 ++ (k, m) :: L2 ->
  k = length L1 /\ ws = L1.*2 ++ m :: L2.*2.
Proof.
  intros Heq. split.
  - assert (Hk : indexed ws !! length L1 = Some (k, m))
      by (rewrite Heq; apply list_lookup_middle; done).
    unfold indexed in Hk. rewrite list_lookup_imap in Hk.
    destruct (ws !! length L1); by inversion Hk.
  - rewrite <- (indexed_snd ws), Heq. by rewrite fmap_app.
Qed.

(** [reduce] returns the first element of highest [zIndex]: the elements
    before it are strictly lower, those after it are not higher. *)
Lemma reduce_max_spec (arr : list (nat * Window)) (init : nat * Window) :
  let m := reduce_max arr init in
  (m = init /\ forall r, r ∈ arr -> zIndex r.2 <= zIndex init.2)
  \/ (exists l1 l2, arr = l1 ++ m :: l2
        /\ zIndex init.2 < zIndex m.2
        /\ (forall r, r ∈ l1 -> zIndex r.2 < zIndex m.2)
        /\ (forall r, r ∈ l2 -> zIndex r.2 <= zIndex m.2)).
Proof.
  induction arr as [|a arr IH] using rev_ind; simpl.
  - left. split; [done |]. intros r Hr. by apply not_elem_of_nil in Hr.
  - unfold reduce_max in *. rewrite foldl_app. simpl.
    set (m := foldl _ init arr) in *.
    destruct (zIndex a.2 >? zIndex m.2) eqn:Hgt.
    + apply Z.gtb_lt in Hgt. right. exists arr, []. split; [done |].
      destruct IH as [[-> Hle] | (l1 & l2 & Harr & Hinit & Hl1 & Hl2)].
      * repeat split; [lia | | intros r Hr; by apply not_elem_of_nil in Hr].
        intros r Hr. specialize (Hle r Hr). lia.
      * repeat split; [lia | | intros r Hr; by apply not_elem_of_nil in Hr].
        intros r Hr. rewrite Harr in Hr.
        apply elem_of_app in Hr as [Hr | Hr]; [specialize (Hl1 r Hr); lia |].
        apply elem_of_cons in Hr as [-> | Hr]; [lia |].
        specialize (Hl2 r Hr). lia.
    + assert (Hle : zIndex a.2 <= zIndex m.2).
      { rewrite Z.gtb_ltb in Hgt. by apply Z.ltb_ge in Hgt. }
      destruct IH as [[Hm Hall] | (l1 & l2 & Harr & Hinit & Hl1 & Hl2)].
      * left. split; [done |]. intros r Hr.
        apply elem_of_app in Hr as [Hr | Hr]; [by apply Hall |].
        apply list_elem_of_singleton in Hr as ->. by rewrite <- Hm.
      * right. exists l1, (l2 ++ [a]). rewrite Harr at 1.
        rewrite <- app_assoc. repeat split; try done.
        intros r Hr. apply elem_of_app in Hr as [Hr | Hr]; [by apply Hl2 |].
        by apply list_elem_of_singleton in Hr as ->.
Qed.

Lemma reduce_max_first (first : nat * Window) (rest : list (nat * Window)) :
  exists l1 l2, first :: rest = l1 ++ reduce_max (first :: rest) first :: l2
    /\ (forall r, r ∈ l1 -> zIndex r.2 < zIndex (reduce_max (first :: rest) first).2)
    /\ (forall r, r ∈ l2 -> zIndex r.2 <= zIndex (reduce_max (first :: rest) first).2).
Proof.
  pose proof (reduce_max_spec (first :: rest) first) as Hspec. cbv zeta in Hspec.
  destruct Hspec as [[Hm Hall] | (l1 & l2 & Harr & _ & Hl1 & Hl2)].
  - exists [], rest. rewrite Hm. repeat split; try done.
    + intros r Hr. by apply not_elem_of_nil in Hr.
    + intros r Hr. apply Hall. by apply elem_of_cons; right.
  - by exists l1, l2.
Qed.

Lemma reduce_max_elem (first : nat * Window) (rest : list (nat * Window)) :
  reduce_max (first :: rest) first ∈ first :: rest
  /\ forall r, r ∈ first :: rest ->
       zIndex r.2 <= zIndex (reduce_max (first :: rest) first).2.
Proof.
  destruct (reduce_max_first first rest) as (l1 & l2 & Heq & Hl1 & Hl2).
  split.
  - rewrite Heq at 2. apply elem_of_app; right. by apply elem_of_cons; left.
  - intros r Hr. rewrite Heq in Hr.
    apply elem_of_app in Hr as [Hr | Hr]; [specialize (Hl1 r Hr); lia |].
    apply elem_of_cons in Hr as [-> | Hr]; [lia | by apply Hl2].
Qed.

Lemma focus_at_split (l1 l2 : list Window) (m : Window) :
  focus_at (length l1) (l1 ++ m :: l2) = l1 ++ with_isFocused true m :: l2.
Proof.
  unfold focus_at. rewrite <- (Nat.add_0_r (length l1)).
  by rewrite alter_app_r.
Qed.

End Arrays.

(** ** Single commands *)

Section Commands.

(** C10. [openWindow] keeps every window that was open at its index and
    changes nothing of it but [isFocused], which becomes false; the new
    window is appended after them. *)
Theorem openWindow_frame (config : Config.t) (generated : string) (s : State)
    (k : nat) (w : Window) :
  windows s !! k = Some w ->
  (exists w', windows (openWindow config generated s) !! k = Some w'
     /\ id w' = id w /\ title w' = title w /\ component w' = component w
     /\ position w' = position w /\ size w' = size w /\ zIndex w' = zIndex w
     /\ isMinimized w' = isMinimized w /\ data w' = data w
     /\ _isNewlyOpened w' = _isNewlyOpened w
     /\ isFocused w' = false)
  /\ length (windows (openWindow config generated s)) = S (length (windows s))
  /\ windows (openWindow config generated s) !! length (windows s)
     = Some (defaultWindow config generated s).
Proof.
  intros Hk. simpl. repeat split.
  - exists (with_isFocused false w). split; [| done].
    rewrite lookup_app_l by (rewrite length_fmap; by eapply lookup_lt_Some).
    by rewrite list_lookup_fmap, Hk.
  - rewrite length_app, length_fmap. simpl. lia.
  - rewrite lookup_app_r by (by rewrite length_fmap).
    by rewrite length_fmap, Nat.sub_diag.
Qed.

Lemma openWindow_frame_witness :
  exists w', windows (openWindow (config_id "b") "win-1" one_window) !! 0%nat = Some w'
    /\ id w' = "a" /\ zIndex w' = 100 /\ isFocused w' = false.
Proof.
  destruct (openWindow_frame (config_id "b") "win-1" one_window 0
              (defaultWindow (config_id "a") "win-0" desktop) eq_refl)
    as [(w' & Hw' & Hid & _ & _ & _ & _ & Hz & _ & _ & _ & Hf) _].
  exists w'. by repeat split.
Defined.

(** C3, as stated, fails: with the single window ["a"] open and focused,
    [focusWindow("ghost")] changes the state: the counter goes from 101 to
    102, ["a"] loses its focus and [focusedWindowId] becomes ["ghost"]. *)
Lemma focusWindow_unknown_id_not_noop :
  ("ghost" ∉ id <$> windows one_window)
  /\ focusWindow "ghost" one_window <> one_window
  /\ nextZIndex one_window = 101
  /\ nextZIndex (focusWindow "ghost" one_window) = 102
  /\ isFocused <$> windows one_window = [true]
  /\ isFocused <$> windows (focusWindow "ghost" one_window) = [false]
  /\ focusedWindowId one_window = Some "a"
  /\ focusedWindowId (focusWindow "ghost" one_window) = Some "ghost".
Proof.
  split; [| split; [| by vm_compute]].
  - intros Hin. apply list_elem_of_singleton in Hin. discriminate.
  - intros Heq. apply (f_equal nextZIndex) in Heq. vm_compute in Heq. discriminate.
Qed.

(** C3 (amended). When [i] is the id of no window, [focusWindow(i)] keeps
    the windows, their order and all their fields but [isFocused], so no
    [zIndex] changes; it clears [isFocused] on every window, increases
    [nextZIndex] by one and sets [focusedWindowId] to [i]. *)
Theorem focusWindow_unknown_id (i : string) (s : State) :
  i ∉ id <$> windows s ->
  windows (focusWindow i s) = with_isFocused false <$> windows s
  /\ zIndex <$> windows (focusWindow i s) = zIndex <$> windows s
  /\ nextZIndex (focusWindow i s) = nextZIndex s + 1
  /\ focusedWindowId (focusWindow i s) = Some i
  /\ theme (focusWindow i s) = theme s
  /\ desktopSize (focusWindow i s) = desktopSize s
  /\ iconPositions (focusWindow i s) = iconPositions s
  /\ selectedIcons (focusWindow i s) = selectedIcons s.
Proof.
  intros Hi.
  assert (Hws : windows (focusWindow i s) = with_isFocused false <$> windows s).
  { simpl. apply list_fmap_ext. intros k w Hk. unfold focus_one.
    destruct (decide (id w = i)) as [<- |]; [| done].
    exfalso. apply Hi. apply list_elem_of_fmap_2. by eapply list_elem_of_lookup_2. }
  split; [done |]. split; [| done].
  rewrite Hws. by apply fmap_fmap_same.
Qed.

Lemma focusWindow_unknown_id_witness :
  windows (focusWindow "ghost" one_window)
    = with_isFocused false <$> windows one_window
  /\ nextZIndex (focusWindow "ghost" one_window) = nextZIndex one_window + 1.
Proof.
  assert (Hi : "ghost" ∉ id <$> windows one_window).
  { intros Hin. apply list_elem_of_singleton in Hin. discriminate. }
  destruct (focusWindow_unknown_id "ghost" one_window Hi) as (H1 & _ & H2 & _).
  by split.
Defined.

(** C9. [closeWindow(i)] removes the windows whose id is [i].  When [i]
    is the focused id and windows remain, the first remaining window of
    highest [zIndex] (every window before it is strictly lower, none after
    it is higher) gets [isFocused = true] and [focusedWindowId] becomes its
    id; when no window remains, [focusedWindowId] becomes null; otherwise
    the remaining windows and [focusedWindowId] are as they were. *)
Theorem closeWindow_focus_handoff (i : string) (s : State) :
  let ws := filter (fun w => id w <> i) (windows s) in
  let s' := closeWindow i s in
  (forall w, w ∈ windows s' -> id w <> i)
  /\ (focusedWindowId s = Some i -> ws <> [] ->
      exists l1 m l2, ws = l1 ++ m :: l2
        /\ (forall w, w ∈ l1 -> zIndex w < zIndex m)
        /\ (forall w, w ∈ l2 -> zIndex w <= zIndex m)
        /\ windows s' = l1 ++ with_isFocused true m :: l2
        /\ focusedWindowId s' = Some (id m))
  /\ (ws = [] -> windows s' = [] /\ focusedWindowId s' = None)
  /\ (focusedWindowId s <> Some i -> ws <> [] ->
      windows s' = ws /\ focusedWindowId s' = focusedWindowId s).
Proof.
  intros ws s'.
  assert (Hids : id <$> windows s' = id <$> ws).
  { unfold s', closeWindow. fold ws. destruct (indexed ws) as [|first rest]; [done |].
    case_decide; [| done]. simpl. by apply fmap_alter_same. }
  split; [| split; [| split]].
  - intros w Hw Hid.
    assert (Hin : id w ∈ id <$> ws)
      by (rewrite <- Hids; by apply list_elem_of_fmap_2).
    apply list_elem_of_fmap in Hin as (w0 & Heq & Hw0).
    apply list_elem_of_filter in Hw0 as [Hne _]. congruence.
  - intros Hfid Hne. unfold s', closeWindow. fold ws.
    destruct (indexed ws) as [|first rest] eqn:Hidx.
    { exfalso. apply Hne. by rewrite <- (indexed_snd ws), Hidx. }
    rewrite decide_True by done. simpl.
    destruct (reduce_max_first first rest) as (L1 & L2 & Heq & HL1 & HL2).
    destruct (reduce_max (first :: rest) first) as [k m] eqn:Hm. simpl in *.
    rewrite <- Hidx in Heq. apply indexed_split in Heq as [-> Hws].
    exists (L1.*2), m, (L2.*2). repeat split; try done.
    + intros w Hw. apply list_elem_of_fmap in Hw as ([j w0] & -> & Hr).
      by apply (HL1 _ Hr).
    + intros w Hw. apply list_elem_of_fmap in Hw as ([j w0] & -> & Hr).
      by apply (HL2 _ Hr).
    + rewrite Hws at 1. rewrite <- (length_fmap snd L1). apply focus_at_split.
  - intros Hnil. unfold s', closeWindow. fold ws. by rewrite Hnil.
  - intros Hfid Hne. unfold s', closeWindow. fold ws.
    destruct (indexed ws) as [|first rest] eqn:Hidx.
    { exfalso. apply Hne. by rewrite <- (indexed_snd ws), Hidx. }
    by rewrite decide_False by done.
Qed.

Lemma closeWindow_focus_handoff_witness :
  windows (closeWindow "A" state_AB) = [with_isFocused true window_B]
  /\ focusedWindowId (closeWindow "A" state_AB) = Some "B".
Proof.
  destruct (closeWindow_focus_handoff "A" state_AB)
    as (_ & Hhand & _ & _).
  destruct (Hhand eq_refl ltac:(vm_compute; discriminate))
    as (l1 & m & l2 & Hsplit & _ & _ & Hws & Hfid).
  vm_compute in Hsplit.
  destruct l1 as [|a [|b l1]]; simpl in Hsplit.
  - inversion Hsplit; subst. by split.
  - by inversion Hsplit.
  - by inversion Hsplit.
Defined.

End Commands.

(** ** Identity of windows: ids, z-indices and the counter *)

Section ZOrder.

Lemma z_inv_sub (s s' : State) :
  id <$> windows s' `sublist_of` id <$> windows s ->
  zIndex <$> windows s' `sublist_of` zIndex <$> windows s ->
  nextZIndex s <= nextZIndex s' ->
  z_inv s -> z_inv s'.
Proof.
  intros Hid Hz Hn [Hids Hzs Hnext]. split.
  - by eapply sublist_NoDup.
  - by eapply sublist_NoDup.
  - intros z Hin. eapply elem_of_sublist in Hin; [| exact Hz].
    specialize (Hnext z Hin). lia.
Qed.

Lemma z_inv_same (s s' : State) :
  id <$> windows s' = id <$> windows s ->
  zIndex <$> windows s' = zIndex <$> windows s ->
  nextZIndex s' = nextZIndex s ->
  z_inv s -> z_inv s'.
Proof.
  intros Hid Hz Hn. apply z_inv_sub; [by rewrite Hid | by rewrite Hz | lia].
Qed.

Lemma z_inv_initialState (iw ih : Z) : z_inv (initialState iw ih).
Proof.
  split; simpl; [apply NoDup_nil_2 | apply NoDup_nil_2 |].
  intros z Hz. by apply not_elem_of_nil in Hz.
Qed.

Lemma z_inv_openWindow (config : Config.t) (generated : string) (s : State) :
  openWindow_id config generated ∉ id <$> windows s ->
  z_inv s -> z_inv (openWindow config generated s).
Proof.
  intros Hfresh [Hids Hzs Hnext]. split; simpl.
  - rewrite fmap_app, fmap_fmap_same by done. simpl.
    apply NoDup_app. split; [done |]. split; [| apply NoDup_singleton].
    intros i Hi Hin. apply list_elem_of_singleton in Hin. by subst.
  - rewrite fmap_app, fmap_fmap_same by done. simpl.
    apply NoDup_app. split; [done |]. split; [| apply NoDup_singleton].
    intros z Hz Hin. apply list_elem_of_singleton in Hin. subst.
    specialize (Hnext _ Hz). lia.
  - intros z. rewrite fmap_app, fmap_fmap_same by done. simpl.
    intros Hin. apply elem_of_app in Hin as [Hin | Hin].
    + specialize (Hnext _ Hin). lia.
    + apply list_elem_of_singleton in Hin. lia.
Qed.

Lemma focus_one_id i next w : id (focus_one i next w) = id w.
Proof. unfold focus_one. by case_decide. Qed.

Lemma focus_one_zIndex i next w :
  zIndex (focus_one i next w) = if decide (id w = i) then next else zIndex w.
Proof. unfold focus_one. by case_decide. Qed.

Lemma windows_focusWindow (i : string) (s : State) :
  windows (focusWindow i s) = focus_one i (nextZIndex s) <$> windows s.
Proof. done. Qed.

Lemma z_inv_focusWindow (i : string) (s : State) :
  z_inv s -> z_inv (focusWindow i s).
Proof.
  intros [Hids Hzs Hnext].
  assert (Hlt : forall k w, windows s !! k = Some w -> zIndex w < nextZIndex s).
  { intros k w Hk. apply Hnext. apply list_elem_of_fmap_2.
    by eapply list_elem_of_lookup_2. }
  split; rewrite windows_focusWindow.
  - rewrite fmap_fmap_same; [done |]. intros w. apply focus_one_id.
  - apply NoDup_alt. intros a b z Ha Hb.
    rewrite !list_lookup_fmap in Ha, Hb.
    destruct (windows s !! a) as [wa|] eqn:Hwa; [| done].
    destruct (windows s !! b) as [wb|] eqn:Hwb; [| done].
    simpl in Ha, Hb. inversion Ha as [Hza]. inversion Hb as [Hzb].
    rewrite focus_one_zIndex in Hza, Hzb.
    pose proof (Hlt _ _ Hwa). pose proof (Hlt _ _ Hwb).
    destruct (decide (id wa = i)) as [Hia|], (decide (id wb = i)) as [Hib|];
      try lia.
    + eapply (NoDup_lookup _ a b (id wa) Hids);
        rewrite list_lookup_fmap; [by rewrite Hwa | rewrite Hwb; simpl; congruence].
    + eapply (NoDup_lookup _ a b (zIndex wa) Hzs);
        rewrite list_lookup_fmap; [by rewrite Hwa | rewrite Hwb; simpl].
      f_equal. lia.
  - intros z Hz. simpl. rewrite <- list_fmap_compose in Hz.
    apply list_elem_of_fmap in Hz as (w & -> & Hw). simpl.
    rewrite focus_one_zIndex.
    apply list_elem_of_lookup in Hw as [k Hk]. specialize (Hlt _ _ Hk).
    case_decide; lia.
Qed.

Lemma z_inv_closeWindow (i : string) (s : State) :
  z_inv s -> z_inv (closeWindow i s).
Proof.
  assert (Hsub : forall {B} (h : Window -> B),
            (forall w, h (with_isFocused true w) = h w) ->
            h <$> windows (closeWindow i s) `sublist_of` h <$> windows s).
  { intros B h Hh. unfold closeWindow.
    set (ws := filter (fun w => id w <> i) (windows s)).
    assert (Hf : h <$> ws `sublist_of` h <$> windows s)
      by (apply fmap_sublist, sublist_filter).
    destruct (indexed ws) as [|first rest]; [done |].
    case_decide; [| done]. simpl. unfold focus_at.
    by rewrite fmap_alter_same. }
  apply z_inv_sub; [by apply Hsub | by apply Hsub |].
  unfold closeWindow. repeat case_match; simpl; lia.
Qed.

Lemma _updateWindowWith_same {B} (h : Window -> B) (i : string)
    (updateFn : Window -> Window) (s : State) :
  (forall w, h (updateFn w) = h w) ->
  h <$> _updateWindowWith i updateFn s = h <$> windows s.
Proof.
  intros Hh. unfold _updateWindowWith. apply fmap_fmap_same.
  intros w. by case_decide.
Qed.

Lemma minimizeWindow_same {B} (h : Window -> B) (i : string) (s : State) :
  (forall w b, h (with_isFocused b w) = h w) ->
  (forall w b, h (with_isMinimized b w) = h w) ->
  h <$> windows (minimizeWindow i s) = h <$> windows s.
Proof.
  intros Hf Hm. unfold minimizeWindow, _updateWindow.
  fold (_updateWindowWith i (fun w => with_isFocused false (with_isMinimized true w)) s).
  set (ws := _updateWindowWith i _ s).
  assert (Hws : h <$> ws = h <$> windows s).
  { apply _updateWindowWith_same. intros w. by rewrite Hf, Hm. }
  destruct (filter _ (indexed ws)) as [|first rest]; [done |].
  simpl. unfold focus_at. by rewrite fmap_alter_same.
Qed.

Lemma nextZIndex_minimizeWindow (i : string) (s : State) :
  nextZIndex (minimizeWindow i s) = nextZIndex s.
Proof. unfold minimizeWindow. by case_match. Qed.

Lemma z_inv_exec (s : State) (c : Command) :
  fresh_ids s c -> z_inv s -> z_inv (exec c s).
Proof.
  intros Hg Hinv. destruct c; simpl in *.
  - by apply z_inv_openWindow.
  - by apply z_inv_closeWindow.
  - by apply z_inv_focusWindow.
  - eapply z_inv_same; [| | | exact Hinv].
    + by apply minimizeWindow_same.
    + by apply minimizeWindow_same.
    + apply nextZIndex_minimizeWindow.
  - by apply z_inv_focusWindow.
  - eapply z_inv_same; [| | | exact Hinv]; [| | done];
      by apply _updateWindowWith_same.
  - eapply z_inv_same; [| | | exact Hinv]; [| | done];
      by apply _updateWindowWith_same.
  - eapply z_inv_same; [| | | exact Hinv]; [| | done];
      by apply _updateWindowWith_same.
  - eapply z_inv_same; [| | | exact Hinv]; [| | done];
      by apply _updateWindowWith_same.
Qed.

Lemma z_inv_reachable (s : State) : reachable_by fresh_ids s -> z_inv s.
Proof.
  induction 1 as [iw ih | s c _ IH Hg].
  - apply z_inv_initialState.
  - by apply z_inv_exec.
Qed.

Lemma reachable_by_weaken (G G' : State -> Command -> Prop) (s : State) :
  (forall st c, G st c -> G' st c) -> reachable_by G s -> reachable_by G' s.
Proof.
  intros HG. induction 1 as [iw ih | st c _ IH Hg].
  - apply reachable_init.
  - apply reachable_step; [exact IH | by apply HG].
Qed.

Lemma reachable_by_reachable (G : State -> Command -> Prop) (s : State) :
  reachable_by G s -> reachable s.
Proof. by apply reachable_by_weaken. Qed.

Lemma reachable_run (cs : list Command) (iw ih : Z) :
  reachable (run cs (initialState iw ih)).
Proof.
  unfold run. induction cs as [|c cs IH] using rev_ind.
  - apply reachable_init.
  - rewrite foldl_app. simpl. by apply reachable_step.
Qed.

End ZOrder.

(** Membership goals over the ids of a concrete state. *)
Ltac solve_not_elem :=
  vm_compute;
  let H := fresh "Hin" in
  intros H;
  repeat (apply elem_of_cons in H as [H | H]; [discriminate H |]);
  by apply not_elem_of_nil in H.
Ltac solve_elem := vm_compute; repeat constructor.

Section ZOrderClaims.

Lemma reachable_by_run (G : State -> Command -> Prop) (cs : list Command) (s : State) :
  reachable_by G s -> guarded_run G cs s -> reachable_by G (run cs s).
Proof.
  revert s. induction cs as [|c cs IH]; intros s Hs Hg; [done |].
  destruct Hg as [Hc Hcs]. apply (IH (exec c s)); [| done].
  by apply reachable_step.
Qed.

(** C2, as stated, fails: opening two windows under the id ["a"] and then
    focusing ["a"] is a sequence of store commands after which both windows
    have [zIndex] 102. *)
Lemma zIndex_shared_by_same_id :
  reachable (run same_id_twice desktop)
  /\ zIndex <$> windows (run same_id_twice desktop) = [102; 102]
  /\ ~ NoDup (zIndex <$> windows (run same_id_twice desktop)).
Proof.
  split; [apply reachable_run |]. split; [done |].
  intros Hnd. change (NoDup [102; 102]) in Hnd.
  apply NoDup_cons in Hnd as [Hnotin _]. apply Hnotin. by left.
Qed.

(** C2 (amended). [openWindow] and [focusWindow] each increase
    [nextZIndex] by exactly one and give the window they open or raise the
    value the counter had before; and in every state reachable from the
    initial empty state by store commands that open windows under ids not
    already in use, no two windows have the same [zIndex]. *)
Theorem zIndex_allocation (s : State) (config : Config.t) (generated i : string) :
  (nextZIndex (openWindow config generated s) = nextZIndex s + 1
   /\ last (windows (openWindow config generated s))
      = Some (defaultWindow config generated s)
   /\ zIndex (defaultWindow config generated s) = nextZIndex s)
  /\ (nextZIndex (focusWindow i s) = nextZIndex s + 1
      /\ forall w, w ∈ windows (focusWindow i s) -> id w = i ->
           zIndex w = nextZIndex s)
  /\ (reachable_by fresh_ids s -> NoDup (zIndex <$> windows s)).
Proof.
  split; [| split].
  - repeat split. simpl. by rewrite last_snoc.
  - split; [done |]. intros w Hw Hid. rewrite windows_focusWindow in Hw.
    apply list_elem_of_fmap in Hw as (w0 & -> & _).
    rewrite focus_one_id in Hid. rewrite focus_one_zIndex. by rewrite decide_True.
  - intros Hr. by apply z_inv_reachable.
Qed.

Lemma zIndex_allocation_witness :
  NoDup (zIndex <$> windows (run open_two_raise_first desktop)).
Proof.
  apply (zIndex_allocation (run open_two_raise_first desktop)
           (config_id "c") "win-2" "a").
  apply reachable_by_run; [apply reachable_init |].
  simpl. repeat split; [solve_not_elem | solve_not_elem].
Defined.

End ZOrderClaims.

(** ** The focus discipline *)

Section Focus.

Lemma elem_of_focus_at (w : Window) (k : nat) (ws : list Window) :
  w ∈ focus_at k ws ->
  exists j w0, ws !! j = Some w0
    /\ ((j = k /\ w = with_isFocused true w0) \/ (j <> k /\ w = w0)).
Proof.
  intros Hw. apply list_elem_of_lookup in Hw as [j Hj]. unfold focus_at in Hj.
  destruct (decide (j = k)) as [-> | Hne].
  - rewrite list_lookup_alter_eq in Hj.
    destruct (ws !! k) as [w0|] eqn:Hk; [| done].
    inversion Hj. exists k, w0. split; [done |]. by left.
  - rewrite list_lookup_alter_ne in Hj by done.
    exists j, w. split; [done |]. by right.
Qed.

(** Handing the focus to the window at reference [k]. *)
Lemma handoff_focus_inv (s : State) (ws : list Window) (k : nat) (m : Window) :
  ws !! k = Some m ->
  (forall j w, ws !! j = Some w -> isFocused w = true -> j = k) ->
  isMinimized m = false ->
  (forall w, w ∈ ws -> isMinimized w = false -> zIndex w <= zIndex m) ->
  focus_inv (updateState2 (focus_at k ws) (Some (id m)) s).
Proof.
  intros Hk Hothers Hmin Hmax. split; simpl.
  - intros w Hw Hf.
    apply elem_of_focus_at in Hw as (j & w0 & Hj & [[-> ->] | [Hne ->]]).
    + rewrite Hk in Hj. inversion Hj; subst w0.
      split; [done |]. split; [done |]. intros w' Hw' Hmin'.
      apply elem_of_focus_at in Hw' as (j' & w1 & Hj' & [[-> ->] | [_ ->]]).
      * rewrite Hk in Hj'. inversion Hj'; subst w1. simpl. lia.
      * simpl. apply Hmax; [by eapply list_elem_of_lookup_2 | done].
    + exfalso. apply Hne. by eapply Hothers.
  - intros _ _ _. exists (with_isFocused true m). split; [| done].
    apply list_elem_of_lookup. exists k. unfold focus_at.
    by rewrite list_lookup_alter_eq, Hk.
Qed.

Lemma focus_inv_initialState (iw ih : Z) : focus_inv (initialState iw ih).
Proof. split; simpl; intros w Hw; by apply not_elem_of_nil in Hw. Qed.

Lemma focus_inv_openWindow (config : Config.t) (generated : string) (s : State) :
  z_inv s -> focus_inv (openWindow config generated s).
Proof.
  intros [_ _ Hnext]. split; simpl.
  - intros w Hw Hf. apply elem_of_app in Hw as [Hw | Hw].
    { apply list_elem_of_fmap in Hw as (w0 & -> & _). done. }
    apply list_elem_of_singleton in Hw as ->. simpl.
    split; [done |]. split; [done |]. intros w' Hw' _.
    apply elem_of_app in Hw' as [Hw' | Hw'].
    + apply list_elem_of_fmap in Hw' as (w0 & -> & Hw0). simpl.
      assert (zIndex w0 < nextZIndex s)
        by (apply Hnext; by apply list_elem_of_fmap_2).
      lia.
    + apply list_elem_of_singleton in Hw' as ->. simpl. lia.
  - intros _ _ _. exists (defaultWindow config generated s). split; [| done].
    apply elem_of_app; right. by apply list_elem_of_singleton.
Qed.

Lemma focus_inv_focusWindow (i : string) (s : State) :
  z_inv s -> i ∈ id <$> windows s -> focus_inv (focusWindow i s).
Proof.
  intros [_ _ Hnext] Hi. split; rewrite windows_focusWindow; simpl.
  - intros w Hw Hf. apply list_elem_of_fmap in Hw as (w0 & -> & Hw0).
    assert (Hid : id w0 = i).
    { unfold focus_one in Hf. by destruct (decide (id w0 = i)). }
    rewrite focus_one_id, focus_one_zIndex, decide_True by done.
    split; [by rewrite Hid |].
    split; [unfold focus_one; by rewrite decide_True |].
    intros w' Hw' _.
    apply list_elem_of_fmap in Hw' as (w1 & -> & Hw1).
    rewrite focus_one_zIndex.
    assert (zIndex w1 < nextZIndex s)
      by (apply Hnext; by apply list_elem_of_fmap_2).
    case_decide; lia.
  - intros _ _ _. apply list_elem_of_fmap in Hi as (w0 & -> & Hw0).
    exists (focus_one (id w0) (nextZIndex s) w0). split.
    + by apply list_elem_of_fmap_2.
    + unfold focus_one. by rewrite decide_True.
Qed.

Lemma focus_inv_closeWindow (i : string) (s : State) :
  focus_inv s -> well_formed s (CloseWindow i) -> focus_inv (closeWindow i s).
Proof.
  intros [Hfoc Hsome] Hguard. simpl in Hguard.
  unfold handoff_target in Hguard. unfold closeWindow.
  set (ws := filter (fun w => id w <> i) (windows s)) in *.
  assert (Hin : forall w, w ∈ ws -> w ∈ windows s /\ id w <> i).
  { intros w Hw. apply list_elem_of_filter in Hw. tauto. }
  destruct (indexed ws) as [|first rest] eqn:Hidx.
  { assert (Hnil : ws = []) by (by rewrite <- (indexed_snd ws), Hidx).
    rewrite Hnil. split; simpl; intros w Hw; by apply not_elem_of_nil in Hw. }
  case_decide as Hfid.
  - destruct (reduce_max_elem first rest) as [Hel Hmax].
    destruct (reduce_max (first :: rest) first) as [k m] eqn:Hm.
    rewrite <- Hidx in Hel. apply indexed_lookup in Hel. simpl.
    apply handoff_focus_inv; [done | | by apply Hguard |].
    + intros j w Hj Hf. exfalso.
      apply list_elem_of_lookup_2 in Hj. apply Hin in Hj as [Hw Hne].
      destruct (Hfoc w Hw Hf) as [Hid _]. congruence.
    + intros w Hw _. apply list_elem_of_lookup in Hw as [j Hj].
      apply indexed_lookup in Hj. rewrite Hidx in Hj.
      apply (Hmax _ Hj).
  - split; simpl.
    + intros w Hw Hf. apply Hin in Hw as [Hw _].
      destruct (Hfoc w Hw Hf) as (Hid & Hmin & Hmax).
      split; [done |]. split; [done |]. intros w' Hw' Hmin'.
      apply Hin in Hw' as [Hw' _]. by apply Hmax.
    + intros w Hw Hmin. apply Hin in Hw as [Hw _].
      destruct (Hsome w Hw Hmin) as (f & Hf & Hff).
      exists f. split; [| done]. apply list_elem_of_filter. split; [| done].
      destruct (Hfoc f Hf Hff) as [Hid _]. congruence.
Qed.

Lemma lookup_updateWindowWith (i : string) (updateFn : Window -> Window)
    (s : State) (j : nat) (w : Window) :
  _updateWindowWith i updateFn s !! j = Some w ->
  exists w0, windows s !! j = Some w0
    /\ w = if decide (id w0 = i) then updateFn w0 else w0.
Proof.
  unfold _updateWindowWith. rewrite list_lookup_fmap.
  destruct (windows s !! j) as [w0|]; [| done].
  intros Heq. inversion Heq. by exists w0.
Qed.

Lemma focus_inv_minimizeWindow (i : string) (s : State) :
  z_inv s -> focus_inv s -> focus_inv (minimizeWindow i s).
Proof.
  intros [_ Hzs _] [Hfoc Hsome]. unfold minimizeWindow, _updateWindow.
  fold (_updateWindowWith i (fun w => with_isFocused false (with_isMinimized true w)) s).
  set (ws := _updateWindowWith i _ s).
  set (visible := filter _ (indexed ws)).
  assert (Hvis : forall j w, ws !! j = Some w -> isMinimized w = false ->
                   (j, w) ∈ visible).
  { intros j w Hj Hmin. apply list_elem_of_filter. split; [done |].
    by apply indexed_lookup. }
  assert (Hold : forall j w, ws !! j = Some w -> isFocused w = true ->
                   windows s !! j = Some w /\ isMinimized w = false
                   /\ forall w', w' ∈ windows s -> isMinimized w' = false ->
                        zIndex w' <= zIndex w).
  { intros j w Hj Hf. apply lookup_updateWindowWith in Hj as (w0 & Hj & ->).
    destruct (decide (id w0 = i)); [done |].
    split; [done |]. apply Hfoc; [by eapply list_elem_of_lookup_2 | done]. }
  destruct visible as [|first rest] eqn:Hv.
  - split; simpl.
    + intros w Hw Hf. apply list_elem_of_lookup in Hw as [j Hj].
      destruct (Hold j w Hj Hf) as (_ & Hmin & _).
      specialize (Hvis j w Hj Hmin). by apply not_elem_of_nil in Hvis.
    + intros w Hw Hmin. apply list_elem_of_lookup in Hw as [j Hj].
      specialize (Hvis j w Hj Hmin). by apply not_elem_of_nil in Hvis.
  - destruct (reduce_max_elem first rest) as [Hel Hmax].
    destruct (reduce_max (first :: rest) first) as [k m] eqn:Hm.
    rewrite <- Hv in Hel. apply list_elem_of_filter in Hel as [Hmmin Hel].
    apply indexed_lookup in Hel. simpl in Hmmin. simpl.
    apply handoff_focus_inv; [done | | done |].
    + intros j w Hj Hf.
      destruct (Hold j w Hj Hf) as (Hj0 & Hmin & Hmax0).
      pose proof (Hmax _ (Hvis j w Hj Hmin)) as Hle1. simpl in Hle1.
      apply lookup_updateWindowWith in Hel as (m0 & Hk0 & Hmeq).
      destruct (decide (id m0 = i)); [by subst m |]. subst m0.
      assert (Hle2 : zIndex m <= zIndex w).
      { apply Hmax0; [by eapply list_elem_of_lookup_2 | done]. }
      eapply (NoDup_lookup _ j k (zIndex w) Hzs); rewrite list_lookup_fmap.
      * by rewrite Hj0.
      * rewrite Hk0. simpl. f_equal. lia.
    + intros w Hw Hmin. apply list_elem_of_lookup in Hw as [j Hj].
      apply (Hmax _ (Hvis j w Hj Hmin)).
Qed.

(** Commands that only move or resize a window. *)
Lemma focus_inv_geometry (i : string) (updateFn : Window -> Window) (s : State) :
  (forall w, id (updateFn w) = id w /\ zIndex (updateFn w) = zIndex w
             /\ isMinimized (updateFn w) = isMinimized w
             /\ isFocused (updateFn w) = isFocused w) ->
  focus_inv s -> focus_inv (updateState1 (_updateWindowWith i updateFn s) s).
Proof.
  intros Hfn [Hfoc Hsome].
  assert (Hin : forall w, w ∈ _updateWindowWith i updateFn s ->
            exists w0, w0 ∈ windows s /\ id w = id w0 /\ zIndex w = zIndex w0
              /\ isMinimized w = isMinimized w0 /\ isFocused w = isFocused w0).
  { intros w Hw. apply list_elem_of_fmap in Hw as (w0 & -> & Hw0).
    exists w0. split; [done |]. case_decide; [apply Hfn | done]. }
  split; simpl.
  - intros w Hw Hf. apply Hin in Hw as (w0 & Hw0 & Hid & Hz & Hmin & Hfo).
    rewrite Hfo in Hf. destruct (Hfoc w0 Hw0 Hf) as (Hfid & Hm & Hmax).
    rewrite Hid, Hmin, Hz. split; [done |]. split; [done |].
    intros w' Hw' Hmin'.
    apply Hin in Hw' as (w1 & Hw1 & _ & Hz1 & Hmin1 & _).
    rewrite Hz1. apply Hmax; [done | congruence].
  - intros w Hw Hmin. apply Hin in Hw as (w0 & Hw0 & _ & _ & Hmin0 & _).
    rewrite Hmin0 in Hmin. destruct (Hsome w0 Hw0 Hmin) as (f & Hf & Hff).
    exists (if decide (id f = i) then updateFn f else f). split.
    + unfold _updateWindowWith. apply list_elem_of_fmap. by exists f.
    + case_decide; [| done]. by rewrite (proj2 (proj2 (proj2 (Hfn f)))).
Qed.

Lemma well_formed_fresh (s : State) (c : Command) :
  well_formed s c -> fresh_ids s c.
Proof. by destruct c. Qed.

Lemma focus_inv_exec (s : State) (c : Command) :
  well_formed s c -> z_inv s -> focus_inv s -> focus_inv (exec c s).
Proof.
  intros Hg Hz Hf. destruct c; simpl.
  - by apply focus_inv_openWindow.
  - by apply focus_inv_closeWindow.
  - by apply focus_inv_focusWindow.
  - by apply focus_inv_minimizeWindow.
  - by apply focus_inv_focusWindow.
  - by apply focus_inv_geometry.
  - by apply focus_inv_geometry.
  - by apply focus_inv_geometry.
  - by apply focus_inv_geometry.
Qed.

Lemma invariants_reachable (s : State) :
  reachable_by well_formed s -> z_inv s /\ focus_inv s.
Proof.
  induction 1 as [iw ih | s c _ [IHz IHf] Hg].
  - split; [apply z_inv_initialState | apply focus_inv_initialState].
  - split; [apply z_inv_exec; [by apply well_formed_fresh | done] |].
    by apply focus_inv_exec.
Qed.

Lemma filter_none {A} (P : A -> Prop) `{!forall a, Decision (P a)} (l : list A) :
  (forall a, a ∈ l -> ~ P a) -> filter P l = [].
Proof.
  induction l as [|a l IH]; intros Hl; [done |].
  rewrite filter_cons_False by (apply Hl; by left).
  apply IH. intros b Hb. apply Hl. by right.
Qed.

(** Under the invariants, the focused windows are counted by whether any
    window is not minimized. *)
Lemma focusedCount_inv (s : State) :
  z_inv s -> focus_inv s ->
  ((exists w, w ∈ windows s /\ isMinimized w = false) -> focusedCount s = 1%nat)
  /\ ((forall w, w ∈ windows s -> isMinimized w = true) ->
      forall w, w ∈ windows s -> isFocused w = false).
Proof.
  intros [Hids _ _] [Hfoc Hsome]. split.
  - intros (w & Hw & Hmin). destruct (Hsome w Hw Hmin) as (f & Hf & Hff).
    destruct (Hfoc f Hf Hff) as [Hfid _].
    apply list_elem_of_split in Hf as (l1 & l2 & Hsplit).
    rewrite Hsplit in Hids. rewrite fmap_app, fmap_cons in Hids.
    apply NoDup_app in Hids as (_ & Hl1 & Hl2).
    apply NoDup_cons in Hl2 as [Hl2 _].
    assert (Hother : forall g, g ∈ windows s -> isFocused g = true -> id g = id f).
    { intros g Hg Hgf. destruct (Hfoc g Hg Hgf) as [Hgid _]. congruence. }
    unfold focusedCount. rewrite Hsplit, filter_app, filter_cons_True by done.
    rewrite !filter_none; [done | |].
    + intros g Hg Hgf. apply Hl2. rewrite <- (Hother g); [| | done].
      * by apply list_elem_of_fmap_2.
      * rewrite Hsplit. apply elem_of_app; right. by right.
    + intros g Hg Hgf. apply (Hl1 (id f)); [| by left].
      rewrite <- (Hother g); [| | done].
      * by apply list_elem_of_fmap_2.
      * rewrite Hsplit. apply elem_of_app; by left.
  - intros Hall w Hw. destruct (isFocused w) eqn:Hf; [| done].
    destruct (Hfoc w Hw Hf) as (_ & Hmin & _).
    rewrite (Hall w Hw) in Hmin. discriminate.
Qed.

End Focus.

Section FocusClaims.

(** C1, as stated, fails.  After opening ["a"] and ["b"], minimizing
    ["b"] and closing ["a"], the only window is minimized and focused.
    After opening ["a"] and focusing an id that no window has, the only
    window is not minimized and none is focused.  After opening ["e"],
    ["b"], ["a"], ["c"], minimizing ["a"], closing ["c"] and minimizing
    ["e"], two windows are focused.  After opening two windows under the
    id ["a"] and focusing ["a"], both are focused. *)
Lemma focus_uniqueness_fails :
  (reachable (run close_over_minimized desktop)
   /\ focus_view <$> windows (run close_over_minimized desktop)
      = [("b", true, true)])
  /\ (reachable (run focus_ghost desktop)
      /\ focus_view <$> windows (run focus_ghost desktop) = [("a", false, false)]
      /\ focusedCount (run focus_ghost desktop) = 0%nat)
  /\ (reachable (run two_focused desktop)
      /\ focus_view <$> windows (run two_focused desktop)
         = [("e", true, false); ("b", false, true); ("a", true, true)]
      /\ focusedCount (run two_focused desktop) = 2%nat)
  /\ (reachable (run same_id_twice desktop)
      /\ focus_view <$> windows (run same_id_twice desktop)
         = [("a", false, true); ("a", false, true)]
      /\ focusedCount (run same_id_twice desktop) = 2%nat).
Proof.
  repeat split; try apply reachable_run; by vm_compute.
Qed.

(** C1 (amended). In every state reachable from the initial empty state
    by store commands that open windows under ids not in use, focus or
    restore only windows that exist, and close the focused window only
    when the window next in line for the focus is not minimized: if some
    window is not minimized then exactly one window has [isFocused = true],
    and if every window is minimized, or there is none, no window has. *)
Theorem focus_uniqueness (s : State) :
  reachable_by well_formed s ->
  ((exists w, w ∈ windows s /\ isMinimized w = false) -> focusedCount s = 1%nat)
  /\ ((forall w, w ∈ windows s -> isMinimized w = true) ->
      forall w, w ∈ windows s -> isFocused w = false).
Proof.
  intros Hr. destruct (invariants_reachable s Hr) as [Hz Hf].
  by apply focusedCount_inv.
Qed.

Lemma focus_uniqueness_witness :
  focusedCount (run raise_then_close desktop) = 1%nat.
Proof.
  apply (focus_uniqueness (run raise_then_close desktop)).
  - apply reachable_by_run; [apply reachable_init |].
    simpl. repeat split.
    + solve_not_elem.
    + solve_not_elem.
    + solve_elem.
    + intros _ m Hm. vm_compute in Hm. by inversion Hm.
  - eexists. split; [vm_compute; left | reflexivity].
Defined.

End FocusClaims.

(** ** Persistence *)

Section Persistence.

Lemma loadFromLocalStorage_parsed (st : LocalStorage) (s : Dyn.t) (parsed : json) :
  available st = true -> item st = Some (Serialized parsed) ->
  loadFromLocalStorage st s
  = match apply_parsed parsed s with
    | inl s' => (s', st)
    | inr s' => (s', mkStorage true (quota_exceeded st) None)
    end.
Proof.
  intros Ha Hi. unfold loadFromLocalStorage, getItem, try_removeItem, removeItem.
  by rewrite Ha, Hi.
Qed.

(** C4, as stated, fails.  A stored number is ignored but its entry is
    not deleted.  An object with an unknown theme keeps the default theme,
    but its windows and icon positions are applied and the entry stays.
    An object whose [windows] is the string ["oops"] has its theme applied,
    and [windows] becomes that string. *)
Lemma load_invalid_payload_applied :
  loadFromLocalStorage (storage_with payload_number) fresh_state
    = (fresh_state, storage_with payload_number)
  /\ (let r := loadFromLocalStorage (storage_with payload_unknown_theme) fresh_state in
      Dyn.theme r.1 = "dark"
      /\ Dyn.windows r.1 = Some (JArr [json_of_window window_B])
      /\ Dyn.iconPositions r.1 = [Map_entry ("about", mkPosition 20 20)]
      /\ r.1 <> fresh_state
      /\ item r.2 = Some (Serialized payload_unknown_theme))
  /\ (let r := loadFromLocalStorage (storage_with payload_windows_not_list) fresh_state in
      Dyn.theme r.1 = "light"
      /\ Dyn.windows fresh_state = Some (JArr [])
      /\ Dyn.windows r.1 = Some (JStr "oops")
      /\ item r.2 = Some (Serialized payload_windows_not_list)).
Proof.
  split; [done |]. split; cbv zeta; repeat split; done.
Qed.

(** C4 (amended). A stored payload that parses to something that is not
    an object (null, a boolean, a number or a string) is ignored: every
    field of the state keeps its value and the stored entry is left in
    place.  A payload object whose theme is not in the known enum keeps the
    default theme, counter, desktop size, focused id and icon selection,
    while its icon positions, when they are a list of entries, are applied
    and the stored entry is left in place.  The entry is deleted exactly
    when building the icon [Map] throws. *)
Theorem load_invalid_payload (st : LocalStorage) (s : Dyn.t) (parsed : json) :
  available st = true -> item st = Some (Serialized parsed) ->
  let r := loadFromLocalStorage st s in
  (truthy (Some parsed) && typeof_object parsed = false -> r = (s, st))
  /\ (THEMES_includes (get_prop "theme" parsed) = false ->
      Dyn.theme r.1 = Dyn.theme s
      /\ Dyn.nextZIndex r.1 = Dyn.nextZIndex s
      /\ Dyn.desktopSize r.1 = Dyn.desktopSize s
      /\ Dyn.focusedWindowId r.1 = Dyn.focusedWindowId s
      /\ Dyn.selectedIcons r.1 = Dyn.selectedIcons s
      /\ forall items m,
           truthy (Some parsed) && typeof_object parsed = true ->
           get_prop "iconPositions" parsed = Some (JArr items) ->
           new_Map items = Some m ->
           Dyn.iconPositions r.1 = m /\ r.2 = st)
  /\ (item r.2 = None <->
      truthy (Some parsed) && typeof_object parsed = true
      /\ exists items, get_prop "iconPositions" parsed = Some (JArr items)
                       /\ new_Map items = None).
Proof.
  intros Ha Hi r. unfold r. rewrite (loadFromLocalStorage_parsed st s parsed Ha Hi).
  unfold apply_parsed.
  destruct (truthy (Some parsed) && typeof_object parsed) eqn:Hobj.
  - apply andb_true_iff in Hobj as [Ht Ho]. rewrite Ht, Ho. simpl.
    split; [done |]. split.
    + intros Hth. rewrite Hth, andb_false_r.
      destruct (get_prop "iconPositions" parsed) as [[| | | |items|]|] eqn:Hic;
        try (repeat split; done).
      destruct (new_Map items) as [m|] eqn:Hm; simpl;
        do 5 (split; [done |]);
        intros items' m' _ Heq Hm'; inversion Heq; subst items';
        rewrite Hm in Hm'; by inversion Hm'.
    + destruct (get_prop "iconPositions" parsed) as [[| | | |items|]|] eqn:Hic;
        try (simpl; rewrite Hi; split; [done | by intros [_ (? & ? & _)]]).
      destruct (new_Map items) as [m|] eqn:Hm; simpl.
      * rewrite Hi. split; [done |]. intros [_ (items' & Heq & Hm')].
        inversion Heq; subst items'. congruence.
      * split; [| done]. intros _. split; [done |]. by exists items.
  - apply andb_false_iff in Hobj as Hobj'.
    assert (Hneg : negb (truthy (Some parsed)) || negb (typeof_object parsed) = true).
    { destruct Hobj' as [-> | ->]; [done | by rewrite orb_true_r]. }
    rewrite Hneg. simpl. split; [done |]. split.
    + intros _. repeat split; try done.
    + rewrite Hi. split; [done | by intros [? _]].
Qed.

Lemma load_invalid_payload_witness :
  loadFromLocalStorage (storage_with payload_number) fresh_state
    = (fresh_state, storage_with payload_number)
  /\ Dyn.theme (loadFromLocalStorage (storage_with payload_unknown_theme)
                  fresh_state).1 = "dark".
Proof.
  split.
  - by apply (load_invalid_payload (storage_with payload_number) fresh_state
                payload_number eq_refl eq_refl).
  - by apply (load_invalid_payload (storage_with payload_unknown_theme) fresh_state
                payload_unknown_theme eq_refl eq_refl).
Defined.

Lemma window_of_json_of_window (w : Window) :
  window_of_json (json_of_window w) = Some w.
Proof. by destruct w as [? ? ? [] [] ? ? ? ? ?]. Qed.

Lemma Map_set_fresh (k : string) (v : jsval) (l : list (string * Position)) :
  k ∉ l.*1 ->
  Map_set (Some (JStr k)) v (Map_entry <$> l)
  = (Map_entry <$> l) ++ [(Some (JStr k), v)].
Proof.
  induction l as [|[k' p] l IH]; intros Hk; [done |].
  rewrite !fmap_cons in *. apply not_elem_of_cons in Hk as [Hne Hk].
  unfold Map_entry at 1. cbn [Map_set sameValueZero fst snd].
  simpl in Hne.
  assert (String.eqb k' k = false) as -> by (apply String.eqb_neq; congruence).
  by rewrite IH.
Qed.

Lemma new_Map_step (acc l : list (string * Position)) :
  NoDup (acc ++ l).*1 ->
  foldl (fun a it => m ← a; e ← entry_of_item it; Some (Map_set e.1 e.2 m))
        (Some (Map_entry <$> acc)) (json_of_entry <$> l)
  = Some (Map_entry <$> (acc ++ l)).
Proof.
  revert acc. induction l as [|[k p] l IH]; intros acc Hnd.
  - by rewrite app_nil_r.
  - simpl. rewrite Map_set_fresh.
    + change [(Some (JStr k), Some (json_of_position p))]
        with (Map_entry <$> [(k, p)]).
      rewrite <- fmap_app. rewrite IH; rewrite <- app_assoc; done.
    + rewrite fmap_app in Hnd. apply NoDup_app in Hnd as (_ & Hdisj & _).
      intros Hin. apply (Hdisj k Hin). by left.
Qed.

(** [new Map] of the saved entries has one entry per saved entry, in the
    saved order. *)
Lemma new_Map_entries (l : list (string * Position)) :
  NoDup l.*1 -> new_Map (json_of_entry <$> l) = Some (Map_entry <$> l).
Proof. intros Hnd. by apply (new_Map_step [] l). Qed.

Lemma foldl_insert_list_to_map (l : list (string * Position))
    (acc : gmap string Position) :
  NoDup l.*1 ->
  foldl (fun a e => <[e.1 := e.2]> a) acc l = list_to_map l ∪ acc.
Proof.
  revert acc. induction l as [|[k p] l IH]; intros acc Hnd.
  - simpl. by rewrite (left_id_L ∅ (∪)).
  - rewrite fmap_cons in Hnd. apply NoDup_cons in Hnd as [Hk Hnd].
    cbn [foldl list_to_map foldr fst snd]. rewrite IH by done.
    rewrite <- insert_union_l. symmetry. apply insert_union_r.
    by apply not_elem_of_list_to_map_1.
Qed.

Lemma iconPositions_of_Map_entries (m : gmap string Position) :
  iconPositions_of_Map (Map_entry <$> map_to_list m) = Some m.
Proof.
  unfold iconPositions_of_Map.
  rewrite (mapM_fmap_Some entry_of_jsvals Map_entry)
    by (by intros [k []]).
  simpl. f_equal.
  rewrite foldl_insert_list_to_map by apply NoDup_fst_map_to_list.
  rewrite (right_id_L ∅ (∪)). apply list_to_map_to_list.
Qed.

Lemma apply_parsed_stateToSave (s : State) (s0 : Dyn.t) :
  theme s ∈ THEMES ->
  apply_parsed (stateToSave s) s0
  = inl (Dyn.with_windows (Some (JArr (json_of_window <$> windows s)))
           (Dyn.with_iconPositions (Map_entry <$> map_to_list (iconPositions s))
              (Dyn.with_theme (theme s) s0))).
Proof.
  intros Hth. unfold apply_parsed, stateToSave.
  change (get_prop "theme" (JObj _)) with (Some (JStr (theme s))).
  change (get_prop "iconPositions" (JObj _))
    with (Some (JArr (json_of_entry <$> map_to_list (iconPositions s)))).
  change (get_prop "windows" (JObj _))
    with (Some (JArr (json_of_window <$> windows s))).
  assert (Hok : truthy (Some (JStr (theme s)))
                && THEMES_includes (Some (JStr (theme s))) = true).
  { apply andb_true_iff. split; [| by apply bool_decide_eq_true].
    unfold THEMES in Hth.
    repeat (apply elem_of_cons in Hth as [-> | Hth]; [done |]).
    by apply not_elem_of_nil in Hth. }
  rewrite Hok. simpl.
  by rewrite new_Map_entries by apply NoDup_fst_map_to_list.
Qed.

(** C6. When storage accepts the write, loading what [saveToLocalStorage]
    stored, into any state, gives back the saved theme (one of the known
    themes), the saved windows, and icon positions that denote the saved
    icon map; the stored entry is kept. *)
Theorem persistence_round_trip (s : State) (st : LocalStorage) (s0 : Dyn.t) :
  theme s ∈ THEMES ->
  available st = true -> quota_exceeded st = false ->
  let saved := saveToLocalStorage s st in
  let r := loadFromLocalStorage saved s0 in
  Dyn.theme r.1 = theme s
  /\ Dyn.windows r.1 = Some (JArr (json_of_window <$> windows s))
  /\ windows_of_jsval (Dyn.windows r.1) = Some (windows s)
  /\ iconPositions_of_Map (Dyn.iconPositions r.1) = Some (iconPositions s)
  /\ r.2 = saved.
Proof.
  intros Hth Ha Hq saved r.
  assert (Hsaved : saved = mkStorage true false (Some (Serialized (stateToSave s)))).
  { unfold saved, saveToLocalStorage, setItem. by rewrite Ha, Hq. }
  assert (Hr : r = (Dyn.with_windows (Some (JArr (json_of_window <$> windows s)))
                      (Dyn.with_iconPositions
                         (Map_entry <$> map_to_list (iconPositions s))
                         (Dyn.with_theme (theme s) s0)), saved)).
  { unfold r. rewrite Hsaved.
    rewrite (loadFromLocalStorage_parsed _ s0 (stateToSave s)) by done.
    by rewrite apply_parsed_stateToSave. }
  rewrite Hr. simpl. repeat split.
  - apply mapM_fmap_Some. apply window_of_json_of_window.
  - apply iconPositions_of_Map_entries.
Qed.

Lemma persistence_round_trip_witness :
  let r := loadFromLocalStorage (saveToLocalStorage state_AB_icons empty_storage)
             fresh_state in
  Dyn.theme r.1 = "glass"
  /\ windows_of_jsval (Dyn.windows r.1) = Some [window_A; window_B]
  /\ iconPositions_of_Map (Dyn.iconPositions r.1)
     = Some {["about" := mkPosition 20 20]}.
Proof.
  assert (Hth : theme state_AB_icons ∈ THEMES).
  { vm_compute. do 3 right. left. }
  destruct (persistence_round_trip state_AB_icons empty_storage fresh_state
              Hth eq_refl eq_refl) as (H1 & _ & H2 & H3 & _).
  by repeat split.
Defined.

End Persistence.

(** * Further properties *)

(** ** Geometry helpers *)

Section GeometryExtras.

(** Case analysis on the comparisons of a goal, innermost first. *)
Ltac no_if t :=
  lazymatch t with context [if _ then _ else _] => fail | _ => idtac end.
Ltac split_tests :=
  repeat match goal with
  | |- context [?a <? ?b] =>
      no_if a; no_if b; destruct (Z.ltb_spec a b); cbn [andb orb negb]; cbv iota
  | |- context [?a <=? ?b] =>
      no_if a; no_if b; destruct (Z.leb_spec a b); cbn [andb orb negb]; cbv iota
  | |- context [?a >? ?b] => rewrite (Z.gtb_ltb a b)
  | |- context [?a >=? ?b] => rewrite (Z.geb_leb a b)
  end.

Lemma snap_axis_idempotent (v r th : Z) :
  let snap u :=
    let u1 := if (u <? th) && (0 <=? u) then 0 else u in
    if (r - th <? u1) && (u1 <=? r) then r else u1 in
  snap (snap v) = snap v.
Proof. cbv beta zeta. split_tests; lia. Qed.

(** X1. Snapping a snapped position changes nothing, whatever the
    threshold. *)
Theorem snapToEdge_idempotent (p : Position) (s b : Size) (threshold : option Z) :
  snapToEdge (snapToEdge p s b threshold) s b threshold = snapToEdge p s b threshold.
Proof.
  unfold snapToEdge. cbv zeta. cbn [x y].
  f_equal; apply snap_axis_idempotent.
Qed.

(** X2. When the free space beside a window is not negative but less
    than the snap threshold, every position between the two edges snaps to
    the far edge (right, bottom), not to the origin. *)
Theorem snapToEdge_far_edge_wins (p : Position) (s b : Size) (th : Z) :
  0 <= x p <= width b - width s -> width b - width s < th ->
  0 <= y p <= height b - height s -> height b - height s < th ->
  snapToEdge p s b (Some th)
  = {| x := width b - width s; y := height b - height s |}.
Proof.
  intros Hx Hr Hy Hb. unfold snapToEdge. cbv zeta. simpl.
  f_equal; split_tests; lia.
Qed.

Lemma snapToEdge_far_edge_wins_witness :
  snapToEdge (mkPosition 3 0) (mkSize 790 590) (mkSize 800 600) (Some 20)
  = mkPosition 10 10.
Proof.
  apply (snapToEdge_far_edge_wins (mkPosition 3 0) (mkSize 790 590)
           (mkSize 800 600) 20); simpl; lia.
Defined.

Lemma constrainPosition_num_Int (p : Position) (s b : Size) :
  constrainPosition_num (of_Position p) s b = of_Position (constrainPosition p s b).
Proof. done. Qed.

Lemma snapToEdge_num_Int (p : Position) (s b : Size) (threshold : option Z) :
  snapToEdge_num (of_Position p) s b threshold
  = of_Position (snapToEdge p s b threshold).
Proof.
  unfold snapToEdge_num, snapToEdge, of_Position. cbv zeta.
  cbn [nx ny x y num_ltb num_geb].
  rewrite !Z.geb_leb.
  destruct ((x p <? _) && (0 <=? x p)), ((y p <? _) && (0 <=? y p));
    cbn [num_gtb num_leb]; rewrite !Z.gtb_ltb;
    repeat case_match; done.
Qed.

Lemma NaN_survives (p : NumPosition) (s b : Size) (threshold : option Z) :
  let q := snapToEdge_num (constrainPosition_num p s b) s b threshold in
  (nx p = NaN -> nx q = NaN) /\ (ny p = NaN -> ny q = NaN).
Proof.
  cbv zeta. unfold snapToEdge_num, constrainPosition_num. cbv zeta. cbn [nx ny].
  split; intros ->; done.
Qed.

(** X3. A drag under the mouse, with no coordinate of the press or of
    the move read as zero, and a drag under a finger commit the position
    the window had, moved by the pointer's displacement, clamped by
    [constrainPosition] and snapped by [snapToEdge]; that position is inside
    the range [constrainPosition] clamps to, so snapping never takes it
    out.  A mouse move at [clientX = 0] ([clientY = 0]) is read as
    [undefined], and the position committed has [x = NaN] ([y = NaN]).  A
    move with an empty list of touches and no non-zero [clientX] throws. *)
Theorem drag_position_in_range (e0 e : Event.t) (windowData : Window)
    (desktopSize : Size) :
  let b := getAvailableDesktopBounds desktopSize in
  let sz := size windowData in
  let r := drag_position (_handleDragStart e0 windowData) e windowData desktopSize in
  let target sx sy cx cy :=
    snapToEdge
      (constrainPosition {| x := x (position windowData) + (cx - sx);
                            y := y (position windowData) + (cy - sy) |} sz b)
      sz b None in
  (forall sx sy cx cy,
     0 <= x (target sx sy cx cy) <= Z.max (width b - width sz) 0
     /\ 0 <= y (target sx sy cx cy) <= Z.max (height b - height sz) 0)
  /\ (forall sx sy cx cy,
      Event.clientX e0 = Some sx -> sx <> 0 ->
      Event.clientY e0 = Some sy -> sy <> 0 ->
      Event.clientX e = Some cx -> cx <> 0 ->
      Event.clientY e = Some cy -> cy <> 0 ->
      r = Returns (of_Position (target sx sy cx cy)))
  /\ (forall t0 ts0 t ts,
      Event.clientX e0 = None -> Event.clientY e0 = None ->
      Event.touches e0 = Some (t0 :: ts0) ->
      Event.clientX e = None -> Event.clientY e = None ->
      Event.touches e = Some (t :: ts) ->
      r = Returns (of_Position (target (touch_clientX t0) (touch_clientY t0)
                                       (touch_clientX t) (touch_clientY t))))
  /\ (Event.touches e = None -> Event.clientX e = Some 0 ->
      exists p, r = Returns p /\ nx p = NaN)
  /\ (Event.touches e = None -> Event.clientY e = Some 0 ->
      exists p, r = Returns p /\ ny p = NaN)
  /\ (Event.touches e = Some [] ->
      Event.clientX e = None \/ Event.clientX e = Some 0 -> r = Throws).
Proof.
  cbv zeta. split; [| split; [| split; [| split; [| split]]]].
  - intros sx sy cx cy. unfold snapToEdge, constrainPosition. cbv zeta. simpl.
    unfold WINDOW_SNAP_THRESHOLD. split; split_tests; lia.
  - intros sx sy cx cy Hsx Hsx0 Hsy Hsy0 Hcx Hcx0 Hcy Hcy0.
    unfold drag_position, _handleDragStart. rewrite Hsx, Hsy, Hcx, Hcy.
    cbn [truthy_number]. rewrite !bool_decide_eq_true_2 by done.
    cbv zeta. cbn [start_x start_y windowX windowY ToNumber num_sub num_add].
    f_equal.
    by rewrite <- snapToEdge_num_Int, <- constrainPosition_num_Int.
  - intros t0 ts0 t ts Hsx Hsy Hst Hcx Hcy Hct.
    unfold drag_position, _handleDragStart, first_touch, first_touch_optional.
    rewrite Hsx, Hsy, Hst, Hcx, Hcy, Hct.
    cbn [truthy_number]. cbv zeta.
    cbn [start_x start_y windowX windowY ToNumber num_sub num_add].
    f_equal.
    by rewrite <- snapToEdge_num_Int, <- constrainPosition_num_Int.
  - intros Ht Hcx. unfold drag_position, first_touch. rewrite Ht, Hcx.
    cbn [truthy_number]. rewrite bool_decide_eq_false_2 by (intros H; by apply H).
    destruct (truthy_number (Event.clientY e)); eexists; (split; [done |]);
      by apply NaN_survives.
  - intros Ht Hcy. unfold drag_position, first_touch. rewrite Ht, Hcy.
    cbn [truthy_number]. rewrite bool_decide_eq_false_2 by (intros H; by apply H).
    destruct (truthy_number (Event.clientX e)); eexists; (split; [done |]);
      by apply NaN_survives.
  - intros Ht Hcx. unfold drag_position, first_touch. rewrite Ht.
    destruct Hcx as [-> | ->]; cbn [truthy_number];
      rewrite ?bool_decide_eq_false_2 by (intros H; by apply H); done.
Qed.

Lemma drag_position_in_range_witness :
  drag_position
    (_handleDragStart (Event.mk (Some 300) (Some 120) None) window_A)
    (Event.mk (Some 350) (Some 10) None) window_A (mkSize 1280 800)
  = Returns {| nx := Int 150; ny := Int 0 |}.
Proof.
  destruct (drag_position_in_range (Event.mk (Some 300) (Some 120) None)
              (Event.mk (Some 350) (Some 10) None) window_A (mkSize 1280 800))
    as (_ & Hmouse & _).
  apply (Hmouse 300 120 350 10); done.
Defined.

(** X4. [constrainSize] never returns less than the minimum size, never
    more than the larger of the minimum and the maximum, and constraining
    its result again changes nothing. *)
Theorem constrainSize_bounds (sz : Size) (minSize : option Size) (mx : Size) :
  let ms := default (mkSize WINDOW_MIN_WIDTH WINDOW_MIN_HEIGHT) minSize in
  let r := constrainSize sz minSize (Some mx) in
  (width ms <= width r <= Z.max (width ms) (width mx))
  /\ (height ms <= height r <= Z.max (height ms) (height mx))
  /\ constrainSize r minSize (Some mx) = r
  /\ width ms <= width (constrainSize sz minSize None)
  /\ height ms <= height (constrainSize sz minSize None).
Proof.
  intros ms r. unfold r, constrainSize. fold ms. simpl.
  repeat split; try lia. f_equal; lia.
Qed.

(** X5. Resizing keeps the edge opposite to the dragged one: a handle
    with ['n'] keeps the bottom edge, a handle with ['s'] keeps the top
    edge, a handle with ['e'] keeps the left edge, and a handle without
    ['n'] and ['s'] (without ['e'] and ['w']) leaves the vertical
    (horizontal) position and extent as they were. *)
Theorem calculateResize_anchors (h : Handle) (startPos currentPos : Position)
    (o : Rect.t) (minSize : option Size) :
  let ms := default (mkSize WINDOW_MIN_WIDTH WINDOW_MIN_HEIGHT) minSize in
  let r := calculateResize (handle_label h) startPos currentPos o minSize in
  let l := handle_label h in
  (includes "n" l = true ->
     height (Rect.size r)
       = Z.max (height ms) (height (Rect.size o) - (y currentPos - y startPos))
     /\ y (Rect.position r) + height (Rect.size r)
       = y (Rect.position o) + height (Rect.size o))
  /\ (includes "s" l = true ->
     height (Rect.size r)
       = Z.max (height ms) (height (Rect.size o) + (y currentPos - y startPos))
     /\ y (Rect.position r) = y (Rect.position o))
  /\ (includes "n" l = false -> includes "s" l = false ->
     height (Rect.size r) = height (Rect.size o)
     /\ y (Rect.position r) = y (Rect.position o))
  /\ (includes "e" l = true ->
     width (Rect.size r)
       = Z.max (width ms) (width (Rect.size o) + (x currentPos - x startPos))
     /\ x (Rect.position r) = x (Rect.position o))
  /\ (includes "e" l = false -> includes "w" l = false ->
     width (Rect.size r) = width (Rect.size o)
     /\ x (Rect.position r) = x (Rect.position o)).
Proof.
  intros ms. destruct h; cbv zeta; unfold calculateResize; fold ms; simpl;
    repeat split; intros; try discriminate; lia.
Qed.

Lemma calculateResize_anchors_witness :
  let r := calculateResize "ne" (mkPosition 0 0) (mkPosition 30 (-40))
             example_window (Some (mkSize 100 50)) in
  height (Rect.size r) = 140 /\ y (Rect.position r) + height (Rect.size r) = 150
  /\ width (Rect.size r) = 230 /\ x (Rect.position r) = 50.
Proof.
  pose proof (calculateResize_anchors H_ne (mkPosition 0 0) (mkPosition 30 (-40))
                example_window (Some (mkSize 100 50))) as H.
  cbv zeta in H. destruct H as (Hn & _ & _ & He & _).
  destruct (Hn eq_refl) as [H1 H2]. destruct (He eq_refl) as [H3 H4].
  cbv zeta. split; [exact H1 | split; [exact H2 | split; [exact H3 | exact H4]]].
Defined.

(** X6. When the available desktop is at least as large as the minimum
    window size, the window a resize commits has a size between the
    minimum and the available desktop and lies inside the available
    desktop, whatever the handle and the pointer. *)
Theorem resize_geometry_inside (handle : string) (dragStart currentPos : Position)
    (originalWindow : Rect.t) (desktopSize : Size) :
  let b := getAvailableDesktopBounds desktopSize in
  let g := resize_geometry handle dragStart currentPos originalWindow desktopSize in
  WINDOW_MIN_WIDTH <= width b -> WINDOW_MIN_HEIGHT <= height b ->
  (WINDOW_MIN_WIDTH <= width (Rect.size g) <= width b)
  /\ (WINDOW_MIN_HEIGHT <= height (Rect.size g) <= height b)
  /\ 0 <= x (Rect.position g)
  /\ x (Rect.position g) + width (Rect.size g) <= width b
  /\ 0 <= y (Rect.position g)
  /\ y (Rect.position g) + height (Rect.size g) <= height b.
Proof.
  intros b g Hw Hh. unfold g, resize_geometry. cbv zeta.
  set (r := calculateResize _ _ _ _ _).
  unfold b, getAvailableDesktopBounds, constrainPosition, constrainSize,
    WINDOW_MIN_WIDTH, WINDOW_MIN_HEIGHT in *.
  simpl in *. lia.
Qed.

Lemma resize_geometry_inside_witness :
  let g := resize_geometry "se" (mkPosition 0 0) (mkPosition 5000 5000)
             example_window (mkSize 1280 800) in
  x (Rect.position g) + width (Rect.size g) <= 1280
  /\ y (Rect.position g) + height (Rect.size g) <= 720.
Proof.
  pose proof (resize_geometry_inside "se" (mkPosition 0 0) (mkPosition 5000 5000)
                example_window (mkSize 1280 800)) as H.
  cbv zeta in H.
  destruct (H ltac:(vm_compute; discriminate) ltac:(vm_compute; discriminate))
    as (_ & _ & _ & Hx & _ & Hy).
  split; [exact Hx | exact Hy].
Defined.

(** X7. Overlap does not depend on the order of the two windows. *)
Theorem isOverlapping_symmetric (a b : Rect.t) :
  isOverlapping a b = isOverlapping b a.
Proof.
  unfold isOverlapping. f_equal. split_tests; lia.
Qed.

(** X8. A point is in a window, edges included, exactly when the empty
    rectangle at that point overlaps the window. *)
Theorem isPointInWindow_overlap (point : Position) (w : Rect.t) :
  isPointInWindow point w = isOverlapping (Rect.mk point (mkSize 0 0)) w.
Proof.
  unfold isPointInWindow, isOverlapping, r_left, r_right, r_top, r_bottom.
  simpl. split_tests; lia.
Qed.

(** X9. The cascade position of [window-manager.js] is the default
    position the store computes; it lies on the diagonal from (100, 100) to
    (299, 299), and repeats every 20 windows. *)
Theorem cascade_position (s : State) (ws ws' : list Window) :
  getCascadePosition (windows s) = getDefaultPosition s
  /\ (100 <= x (getCascadePosition ws) < 300
      /\ y (getCascadePosition ws) = x (getCascadePosition ws))
  /\ (length ws' = (length ws + 20)%nat ->
      getCascadePosition ws' = getCascadePosition ws).
Proof.
  split; [done |]. split.
  - unfold getCascadePosition. simpl.
    pose proof (Z.mod_pos_bound (Z.of_nat (length ws) * WINDOW_CASCADE_OFFSET)
                  WINDOW_CASCADE_MAX ltac:(done)).
    unfold WINDOW_CASCADE_MAX in *. lia.
  - intros Hlen. unfold getCascadePosition. rewrite Hlen.
    replace (Z.of_nat (length ws + 20) * WINDOW_CASCADE_OFFSET)
      with (Z.of_nat (length ws) * WINDOW_CASCADE_OFFSET + 3 * WINDOW_CASCADE_MAX)
      by (unfold WINDOW_CASCADE_OFFSET, WINDOW_CASCADE_MAX; lia).
    by rewrite Z_mod_plus_full.
Qed.

Lemma cascade_position_witness :
  getCascadePosition (replicate 27 window_A) = getCascadePosition (replicate 7 window_A).
Proof.
  apply (cascade_position desktop (replicate 7 window_A) (replicate 27 window_A)).
  reflexivity.
Defined.

(** X10. [normalizeWindowBounds] returns a size no larger than the bounds
    and a position that is not above the top; when the bounds are at least
    100 pixels each way, at least 100 pixels of the window (or all of it,
    if it is smaller) are inside the bounds in each direction.  Only the
    position and the size of the window change. *)
Theorem normalizeWindowBounds_visible (w : Window) (bounds : Size) :
  let n := normalizeWindowBounds w bounds in
  (width (size n) <= width bounds /\ height (size n) <= height bounds
   /\ 0 <= y (position n))
  /\ (id n = id w /\ title n = title w /\ component n = component w
      /\ zIndex n = zIndex w /\ isMinimized n = isMinimized w
      /\ isFocused n = isFocused w /\ data n = data w)
  /\ (WINDOW_MIN_VISIBLE_PIXELS <= width bounds ->
      WINDOW_MIN_VISIBLE_PIXELS <= height bounds ->
      Z.min (width (size n)) WINDOW_MIN_VISIBLE_PIXELS
        <= visible_width (position n) (size n) bounds
      /\ Z.min (height (size n)) WINDOW_MIN_VISIBLE_PIXELS
        <= visible_height (position n) (size n) bounds).
Proof.
  cbv zeta. unfold normalizeWindowBounds, visible_width, visible_height,
    WINDOW_MIN_VISIBLE_PIXELS. simpl.
  split; [| split; [done |]].
  - repeat split; split_tests; lia.
  - intros Hw Hh. split; split_tests; lia.
Qed.

Lemma normalizeWindowBounds_visible_witness :
  let n := normalizeWindowBounds (with_position (mkPosition 5000 (-300)) window_A)
             (mkSize 800 600) in
  100 <= visible_width (position n) (size n) (mkSize 800 600)
  /\ 100 <= visible_height (position n) (size n) (mkSize 800 600).
Proof.
  pose proof (normalizeWindowBounds_visible
                (with_position (mkPosition 5000 (-300)) window_A) (mkSize 800 600)) as H.
  cbv zeta in H. destruct H as (_ & _ & Hv).
  destruct (Hv ltac:(vm_compute; discriminate) ltac:(vm_compute; discriminate))
    as [H1 H2].
  split; [exact H1 | exact H2].
Defined.

End GeometryExtras.

(** ** The store: handoff on minimize, frames and lookups *)

Section StoreExtras.

Lemma indexed_NoDup (ws : list Window) : NoDup (indexed ws).
Proof.
  apply NoDup_alt. intros a b [k w] Ha Hb.
  unfold indexed in *. rewrite list_lookup_imap in Ha, Hb.
  destruct (ws !! a); [| done]. destruct (ws !! b); [| done].
  simpl in *. congruence.
Qed.

Lemma pivot_unique {A} (x : A) (l1 l2 k1 k2 : list A) :
  l1 ++ x :: l2 = k1 ++ x :: k2 -> x ∉ l1 -> x ∉ k1 -> l1 = k1 /\ l2 = k2.
Proof.
  revert k1. induction l1 as [|a l1 IH]; intros [|b k1] Heq Hl Hk; simpl in *.
  - by inversion Heq.
  - inversion Heq; subst. exfalso. apply Hk. by left.
  - inversion Heq; subst. exfalso. apply Hl. by left.
  - inversion Heq; subst.
    destruct (IH k1) as [-> ->]; [done | | | done].
    + intros Hin. apply Hl. by right.
    + intros Hin. apply Hk. by right.
Qed.

Lemma indexed_at (ws : list Window) (k : nat) (m : Window) :
  ws !! k = Some m ->
  exists rest, indexed ws = indexed (take k ws) ++ (k, m) :: rest.
Proof.
  intros Hk. pose proof (take_drop_middle ws k m Hk) as Hsplit.
  assert (Hlen : length (take k ws) = k).
  { apply length_take_le. apply lookup_lt_Some in Hk. lia. }
  exists (imap (pair ∘ Nat.add (length (take k ws)) ∘ S) (drop (S k) ws)).
  unfold indexed. rewrite <- Hsplit at 1. rewrite imap_app, imap_cons.
  simpl. by rewrite Nat.add_0_r, Hlen.
Qed.

Lemma minimized_target (i : string) (s : State) (w : Window) :
  w ∈ _updateWindow i (fun w => with_isFocused false (with_isMinimized true w)) s ->
  id w = i -> isMinimized w = true /\ isFocused w = false.
Proof.
  intros Hw Hid. apply list_elem_of_fmap in Hw as (w0 & -> & _).
  by destruct (decide (id w0 = i)).
Qed.

(** X11. [minimizeWindow(i)] minimizes and unfocuses the windows whose id
    is [i].  If a window that is not minimized remains, the first such
    window of highest [zIndex] gets [isFocused = true] and
    [focusedWindowId] becomes its id; if none remains, no flag is set and
    [focusedWindowId] becomes null. *)
Theorem minimizeWindow_focus_handoff (i : string) (s : State) :
  let ws := _updateWindow i
              (fun w => with_isFocused false (with_isMinimized true w)) s in
  let s' := minimizeWindow i s in
  (forall w, w ∈ windows s' -> id w = i ->
     isMinimized w = true /\ isFocused w = false)
  /\ ((exists w, w ∈ ws /\ isMinimized w = false) ->
      exists l1 m l2, ws = l1 ++ m :: l2 /\ isMinimized m = false
        /\ (forall w, w ∈ l1 -> isMinimized w = false -> zIndex w < zIndex m)
        /\ (forall w, w ∈ l2 -> isMinimized w = false -> zIndex w <= zIndex m)
        /\ windows s' = l1 ++ with_isFocused true m :: l2
        /\ focusedWindowId s' = Some (id m))
  /\ ((forall w, w ∈ ws -> isMinimized w = true) ->
      windows s' = ws /\ focusedWindowId s' = None).
Proof.
  intros ws s'. unfold s', minimizeWindow. fold ws.
  set (visible := filter (fun r : nat * Window => isMinimized r.2 = false) (indexed ws)).
  assert (Hvis : forall j w, ws !! j = Some w -> isMinimized w = false ->
                   (j, w) ∈ visible).
  { intros j w Hj Hmin. apply list_elem_of_filter. split; [done |].
    by apply indexed_lookup. }
  destruct visible as [|first rest] eqn:Hv.
  { split; [| split].
    - intros w Hw Hid. by apply (minimized_target i s).
    - intros (w & Hw & Hmin). apply list_elem_of_lookup in Hw as [j Hj].
      specialize (Hvis j w Hj Hmin). by apply not_elem_of_nil in Hvis.
    - done. }
  destruct (reduce_max_first first rest) as (L1 & L2 & Heq & HL1 & _).
  destruct (reduce_max_elem first rest) as [Hel Hmax].
  destruct (reduce_max (first :: rest) first) as [k m] eqn:Hm.
  rewrite <- Hv in Hel, Heq. unfold visible in Hel.
  apply list_elem_of_filter in Hel as [Hmmin Hk]. simpl in Hmmin.
  apply indexed_lookup in Hk.
  pose proof (take_drop_middle ws k m Hk) as Hsplit.
  assert (Hlen : length (take k ws) = k).
  { apply length_take_le. apply lookup_lt_Some in Hk. lia. }
  assert (Hws' : focus_at k ws
                 = take k ws ++ with_isFocused true m :: drop (S k) ws).
  { rewrite <- Hsplit at 1. rewrite <- Hlen at 1. apply focus_at_split. }
  simpl. split; [| split].
  - intros w Hw Hid. rewrite Hws' in Hw.
    assert (Hcase : w = with_isFocused true m \/ w ∈ ws).
    { rewrite <- Hsplit. apply elem_of_app in Hw as [Hw | Hw].
      - right. apply elem_of_app. by left.
      - apply elem_of_cons in Hw as [-> | Hw]; [by left |].
        right. apply elem_of_app. right. by right. }
    destruct Hcase as [-> | Hin]; [| by apply (minimized_target i s)].
    simpl in Hid.
    destruct (minimized_target i s m) as [Hmm _];
      [by eapply list_elem_of_lookup_2 | done | congruence].
  - intros _. exists (take k ws), m, (drop (S k) ws).
    split; [done |]. split; [done |]. split; [| split; [| done]].
    + intros w Hw Hmin.
      destruct (indexed_at ws k m Hk) as [tl Hidx].
      assert (Hfilter : visible
                = filter (fun r : nat * Window => isMinimized r.2 = false)
                         (indexed (take k ws))
                  ++ (k, m) :: filter (fun r : nat * Window => isMinimized r.2 = false) tl).
      { unfold visible. rewrite Hidx, filter_app, filter_cons_True by done. done. }
      rewrite Hfilter in Heq.
      assert (Hnd : NoDup (L1 ++ (k, m) :: L2)).
      { rewrite <- Heq, <- Hfilter. apply NoDup_filter, indexed_NoDup. }
      apply pivot_unique in Heq as [HA1 _].
      * apply list_elem_of_lookup in Hw as [j Hj].
        assert (Hin : (j, w) ∈ L1).
        { rewrite <- HA1. apply list_elem_of_filter. split; [done |].
          by apply indexed_lookup. }
        apply (HL1 _ Hin).
      * intros Hin. apply list_elem_of_filter in Hin as [_ Hin].
        apply indexed_lookup in Hin. apply lookup_lt_Some in Hin. lia.
      * apply NoDup_app in Hnd as (_ & Hdisj & _).
        intros Hin. apply (Hdisj _ Hin). by left.
    + intros w Hw Hmin.
      assert (Hin : w ∈ ws).
      { rewrite <- Hsplit. apply elem_of_app. right. by right. }
      apply list_elem_of_lookup in Hin as [j Hj].
      apply (Hmax _ (Hvis j w Hj Hmin)).
  - intros Hall. rewrite (Hall m) in Hmmin; [done |].
    by eapply list_elem_of_lookup_2.
Qed.

Lemma minimizeWindow_focus_handoff_witness :
  focus_view <$> windows (minimizeWindow "A" state_AB)
    = [("A", true, false); ("B", false, true)]
  /\ focusedWindowId (minimizeWindow "A" state_AB) = Some "B".
Proof.
  destruct (minimizeWindow_focus_handoff "A" state_AB) as (_ & Hhand & _).
  destruct Hhand as (l1 & m & l2 & _ & _ & _ & _ & Hws & Hfid).
  { exists window_B. split; [| done]. vm_compute. right. left. }
  by vm_compute.
Defined.

Lemma updateState1_same (s : State) : updateState1 (windows s) s = s.
Proof. by destruct s. Qed.

Lemma _updateWindowWith_unknown (i : string) (updateFn : Window -> Window) (s : State) :
  i ∉ id <$> windows s -> _updateWindowWith i updateFn s = windows s.
Proof.
  intros Hi. unfold _updateWindowWith.
  rewrite <- (list_fmap_id (windows s)) at 2.
  apply list_fmap_ext. intros k w Hk.
  destruct (decide (id w = i)) as [<- |]; [| done].
  exfalso. apply Hi. apply list_elem_of_fmap_2. by eapply list_elem_of_lookup_2.
Qed.

(** X12. With an id that no window has, [maximizeWindow], [centerWindow],
    [updateWindowPosition] and [updateWindowSize] return the state they
    were given. *)
Theorem geometry_commands_unknown_id (i : string) (s : State)
    (p : Position) (sz : Size) :
  i ∉ id <$> windows s ->
  maximizeWindow i s = s /\ centerWindow i s = s
  /\ updateWindowPosition i p s = s /\ updateWindowSize i sz s = s.
Proof.
  intros Hi.
  assert (Hu : forall f, _updateWindow i f s = windows s)
    by (intros f; by apply _updateWindowWith_unknown).
  unfold maximizeWindow, centerWindow, updateWindowPosition, updateWindowSize.
  cbv zeta. rewrite ?Hu, ?_updateWindowWith_unknown by done.
  repeat split; apply updateState1_same.
Qed.

Lemma geometry_commands_unknown_id_witness :
  maximizeWindow "ghost" one_window = one_window
  /\ updateWindowPosition "ghost" (mkPosition 1 2) one_window = one_window.
Proof.
  assert (Hi : "ghost" ∉ id <$> windows one_window) by solve_not_elem.
  destruct (geometry_commands_unknown_id "ghost" one_window (mkPosition 1 2)
              (mkSize 3 4) Hi) as (H1 & _ & H2 & _).
  by split.
Defined.

Lemma elem_of_focus_at_content (w : Window) (k : nat) (ws : list Window) :
  w ∈ focus_at k ws ->
  exists w0, w0 ∈ ws /\ content_view w = content_view w0
             /\ zIndex w = zIndex w0 /\ isMinimized w = isMinimized w0.
Proof.
  intros Hw. apply elem_of_focus_at in Hw as (j & w0 & Hj & [[_ ->] | [_ ->]]);
    exists w0; (split; [by eapply list_elem_of_lookup_2 | done]).
Qed.

(** X13. [maximizeWindow(i)] puts the windows whose id is [i] at the
    origin with the desktop's width and its height less 80; it changes no
    id, focus flag, minimized flag or [zIndex], nor the counter or
    [focusedWindowId]; and maximizing again changes nothing. *)
Theorem maximizeWindow_effect (i : string) (s : State) :
  let s' := maximizeWindow i s in
  (forall w, w ∈ windows s' -> id w = i ->
     position w = mkPosition 0 0
     /\ size w = mkSize (width (desktopSize s)) (height (desktopSize s) - 80))
  /\ focus_view <$> windows s' = focus_view <$> windows s
  /\ zIndex <$> windows s' = zIndex <$> windows s
  /\ nextZIndex s' = nextZIndex s
  /\ focusedWindowId s' = focusedWindowId s
  /\ maximizeWindow i s' = s'.
Proof.
  cbv zeta. unfold maximizeWindow. simpl. repeat split.
  - apply list_elem_of_fmap in H as (w0 & -> & _).
    destruct (decide (id w0 = i)); [done | congruence].
  - apply list_elem_of_fmap in H as (w0 & -> & _).
    destruct (decide (id w0 = i)); [done | congruence].
  - by apply _updateWindowWith_same.
  - by apply _updateWindowWith_same.
  - unfold updateState1, updateState3, _updateWindowWith. simpl. f_equal.
    rewrite <- list_fmap_compose. apply list_fmap_ext. intros k w _. simpl.
    destruct (decide (id w = i)) as [Hid|Hid]; simpl.
    + by rewrite decide_True.
    + by rewrite decide_False.
Qed.

Lemma maximizeWindow_effect_witness :
  (position <$> windows (maximizeWindow "A" state_AB))
    = [mkPosition 0 0; mkPosition 130 130]
  /\ focus_view <$> windows (maximizeWindow "A" state_AB)
     = focus_view <$> windows state_AB.
Proof.
  destruct (maximizeWindow_effect "A" state_AB) as (Hgeo & Hfocus & _).
  split; [| exact Hfocus].
  destruct (Hgeo (with_size (mkSize 1280 720)
                    (with_position (mkPosition 0 0) window_A))) as [Hp _];
    [vm_compute; left | reflexivity |].
  by vm_compute.
Defined.

(** X14. Opening, closing, focusing, minimizing and restoring never move
    or resize a window, nor change its id, title, component or data: each
    window of the new state is a window of the old state in these
    respects, or the window just opened. *)
Theorem commands_keep_geometry (c : Command) (s : State) (w' : Window) :
  keeps_geometry c = true ->
  w' ∈ windows (exec c s) ->
  (exists w, w ∈ windows s /\ content_view w' = content_view w)
  \/ (exists config generated,
        c = OpenWindow config generated /\ w' = defaultWindow config generated s).
Proof.
  intros Hc Hw'. destruct c; try discriminate; simpl in Hw'.
  - apply elem_of_app in Hw' as [Hw' | Hw'].
    + left. apply list_elem_of_fmap in Hw' as (w & -> & Hw). by exists w.
    + right. apply list_elem_of_singleton in Hw' as ->. by exists config, generated.
  - left. unfold closeWindow in Hw'.
    set (ws := filter (fun w => id w <> i) (windows s)) in *.
    assert (Hsub : forall w, w ∈ ws -> w ∈ windows s).
    { intros w Hw. by apply list_elem_of_filter in Hw as [_ Hw]. }
    destruct (indexed ws) as [|first rest].
    { exists w'. split; [by apply Hsub | done]. }
    case_decide; simpl in Hw'.
    + apply elem_of_focus_at_content in Hw' as (w0 & Hw0 & Heq & _).
      exists w0. split; [by apply Hsub | done].
    + exists w'. split; [by apply Hsub | done].
  - left. apply list_elem_of_fmap in Hw' as (w & -> & Hw).
    exists w. split; [done |]. unfold focus_one. by case_decide.
  - left. unfold minimizeWindow in Hw'.
    set (ws := _updateWindow i _ s) in *.
    assert (Hsub : forall w, w ∈ ws ->
              exists w0, w0 ∈ windows s /\ content_view w = content_view w0).
    { intros w Hw. apply list_elem_of_fmap in Hw as (w0 & -> & Hw0).
      exists w0. split; [done |]. by case_decide. }
    destruct (filter _ (indexed ws)) as [|first rest]; simpl in Hw'.
    { by apply Hsub. }
    apply elem_of_focus_at_content in Hw' as (w0 & Hw0 & Heq & _).
    destruct (Hsub w0 Hw0) as (w1 & Hw1 & Heq1).
    exists w1. split; [done | congruence].
  - left. apply list_elem_of_fmap in Hw' as (w & -> & Hw).
    exists w. split; [done |]. unfold focus_one. by case_decide.
Qed.

Lemma commands_keep_geometry_witness :
  exists w, w ∈ windows state_AB
    /\ content_view (with_isMinimized true (with_isFocused false window_A))
       = content_view w.
Proof.
  destruct (commands_keep_geometry (MinimizeWindow "A") state_AB
              (with_isFocused false (with_isMinimized true window_A)) eq_refl)
    as [Hold | (config & generated & Hc & _)].
  - vm_compute. left.
  - exact Hold.
  - discriminate Hc.
Defined.

(** X15. [centerWindow(i)] gives the windows whose id is [i] half the
    desktop's width, rounded down, puts their top at 80, and centres them
    horizontally: the right margin is the left margin or one pixel more. *)
Theorem centerWindow_centered (i : string) (s : State) (w : Window) :
  w ∈ windows (centerWindow i s) -> id w = i ->
  width (size w) = width (desktopSize s) / 2
  /\ y (position w) = 80
  /\ 0 <= (width (desktopSize s) - (x (position w) + width (size w)))
          - x (position w) <= 1.
Proof.
  intros Hw Hid. unfold centerWindow in Hw. cbv zeta in Hw.
  apply list_elem_of_fmap in Hw as (w0 & -> & _).
  destruct (decide (id w0 = i)); [| congruence].
  cbn [position size with_size with_position x y width height].
  set (W := width (desktopSize s)). set (hw := W / 2).
  pose proof (Z.mod_pos_bound (W - hw) 2 ltac:(lia)).
  pose proof (Z.div_mod (W - hw) 2 ltac:(lia)).
  repeat split; lia.
Qed.

Lemma centerWindow_centered_witness :
  let w := with_size (mkSize 640 503) (with_position (mkPosition 320 80) window_A) in
  width (size w) = 1280 / 2
  /\ 0 <= (1280 - (x (position w) + width (size w))) - x (position w) <= 1.
Proof.
  intros w.
  destruct (centerWindow_centered "A" state_AB w) as (H1 & _ & H2).
  - vm_compute. left.
  - reflexivity.
  - split; [exact H1 | exact H2].
Defined.

Lemma getWindow_Some (i : string) (s : State) (k : nat) (w : Window) :
  NoDup (id <$> windows s) -> windows s !! k = Some w -> id w = i ->
  getWindow i s = Some w.
Proof.
  intros Hnd Hk Hid. unfold getWindow.
  assert (Hfind : list_find (fun w => id w = i) (windows s) = Some (k, w)).
  { apply list_find_Some. split; [done |]. split; [done |].
    intros j y Hj Hlt Hy. assert (j = k); [| lia].
    eapply (NoDup_lookup _ j k i Hnd); rewrite list_lookup_fmap.
    - by rewrite Hj; simpl; rewrite Hy.
    - by rewrite Hk; simpl; rewrite Hid. }
  by rewrite Hfind.
Qed.

Lemma closeWindow_ids (i : string) (s : State) :
  id <$> windows (closeWindow i s)
  = id <$> filter (fun w => id w <> i) (windows s).
Proof.
  unfold closeWindow. destruct (indexed _) as [|first rest]; [done |].
  case_decide; [| done]. simpl. by apply fmap_alter_same.
Qed.

(** X16. After [openWindow], [getWindow] of the id it used returns the
    new window when no window had that id, and the window that already had
    it (now unfocused) otherwise, so a window opened under an id in use
    cannot be looked up; after [closeWindow(i)], [getWindow(i)] finds
    nothing. *)
Theorem getWindow_after_commands (config : Config.t) (generated i : string)
    (s : State) :
  let j := openWindow_id config generated in
  (j ∉ id <$> windows s ->
     getWindow j (openWindow config generated s)
     = Some (defaultWindow config generated s))
  /\ (forall old, getWindow j s = Some old ->
        getWindow j (openWindow config generated s)
        = Some (with_isFocused false old))
  /\ getWindow i (closeWindow i s) = None.
Proof.
  intros j. split; [| split].
  - intros Hfresh. unfold getWindow. simpl.
    rewrite list_find_app_r.
    + simpl. rewrite decide_True by done. done.
    + apply list_find_None. apply Forall_forall. intros w Hw Hid.
      apply list_elem_of_fmap in Hw as (w0 & -> & Hw0). simpl in Hid.
      apply Hfresh. rewrite <- Hid. by apply list_elem_of_fmap_2.
  - intros old Hold. unfold getWindow in *. simpl.
    destruct (list_find (fun w => id w = j) (windows s)) as [[k w]|] eqn:Hfind;
      [| done].
    simpl in Hold. inversion Hold; subst w.
    apply list_find_Some in Hfind as (Hk & Hid & Hfirst).
    erewrite list_find_app_l; [done |].
    apply list_find_Some. split; [| split].
    + by rewrite list_lookup_fmap, Hk.
    + done.
    + intros k' y Hk' Hlt. rewrite list_lookup_fmap in Hk'.
      destruct (windows s !! k') as [y0|] eqn:Hy0; [| done].
      inversion Hk'; subst y. simpl. by eapply Hfirst.
  - unfold getWindow.
    assert (Hnone : list_find (fun w => id w = i) (windows (closeWindow i s)) = None).
    { apply list_find_None. apply Forall_forall. intros w Hw Hid.
      assert (Hin : id w ∈ id <$> windows (closeWindow i s))
        by (by apply list_elem_of_fmap_2).
      rewrite closeWindow_ids in Hin.
      apply list_elem_of_fmap in Hin as (w0 & Heq & Hw0).
      apply list_elem_of_filter in Hw0 as [Hne _]. congruence. }
    by rewrite Hnone.
Qed.

Lemma getWindow_after_commands_witness :
  getWindow "a" (openWindow (config_id "a") "win-1" one_window)
  = Some (with_isFocused false (defaultWindow (config_id "a") "win-0" desktop))
  /\ getWindow "b" (openWindow (config_id "b") "win-1" one_window)
     = Some (defaultWindow (config_id "b") "win-1" one_window).
Proof.
  split.
  - by apply (getWindow_after_commands (config_id "a") "win-1" "a" one_window).
  - apply (getWindow_after_commands (config_id "b") "win-1" "b" one_window).
    solve_not_elem.
Defined.

Lemma focus_ref_inv_handoff (s : State) (ws : list Window) (k : nat) (m : Window) :
  ws !! k = Some m ->
  focus_ref_inv (updateState2 (focus_at k ws) (Some (id m)) s).
Proof.
  intros Hk i Hi. simpl in Hi. inversion Hi; subst i.
  exists (with_isFocused true m). split; [| done].
  simpl. apply list_elem_of_lookup. exists k. unfold focus_at.
  by rewrite list_lookup_alter_eq, Hk.
Qed.

Lemma focus_ref_inv_exec (s : State) (c : Command) :
  well_formed s c -> focus_inv s -> focus_ref_inv s -> focus_ref_inv (exec c s).
Proof.
  intros Hg [Hfoc _] Href. destruct c; simpl in Hg |- *.
  - intros i Hi. simpl in Hi. inversion Hi; subst i.
    exists (defaultWindow config generated s). split; [| done].
    simpl. apply elem_of_app. right. by apply list_elem_of_singleton.
  - unfold closeWindow.
    set (ws := filter (fun w => id w <> i) (windows s)).
    destruct (indexed ws) as [|first rest] eqn:Hidx; [by intros j Hj |].
    case_decide as Hfid.
    + destruct (reduce_max_elem first rest) as [Hel _].
      destruct (reduce_max (first :: rest) first) as [k m].
      rewrite <- Hidx in Hel. apply indexed_lookup in Hel.
      by apply focus_ref_inv_handoff.
    + intros j Hj. simpl in Hj. destruct (Href j Hj) as (w & Hw & Hid & Hf).
      exists w. split; [| done]. apply list_elem_of_filter. split; [| done].
      congruence.
  - intros j Hj. simpl in Hj. inversion Hj; subst j.
    apply list_elem_of_fmap in Hg as (w0 & -> & Hw0).
    exists (focus_one (id w0) (nextZIndex s) w0). split; [| split].
    + rewrite windows_focusWindow. apply list_elem_of_fmap. by exists w0.
    + apply focus_one_id.
    + unfold focus_one. by rewrite decide_True.
  - unfold minimizeWindow. set (ws := _updateWindow i _ s).
    destruct (filter _ (indexed ws)) as [|first rest] eqn:Hv; [by intros j Hj |].
    destruct (reduce_max_elem first rest) as [Hel _].
    destruct (reduce_max (first :: rest) first) as [k m].
    rewrite <- Hv in Hel. apply list_elem_of_filter in Hel as [_ Hel].
    apply indexed_lookup in Hel. by apply focus_ref_inv_handoff.
  - intros j Hj. simpl in Hj. inversion Hj; subst j.
    apply list_elem_of_fmap in Hg as (w0 & -> & Hw0).
    exists (focus_one (id w0) (nextZIndex s) w0). split; [| split].
    + unfold restoreWindow. rewrite windows_focusWindow.
      apply list_elem_of_fmap. by exists w0.
    + apply focus_one_id.
    + unfold focus_one. by rewrite decide_True.
  - intros j Hj. simpl in Hj. destruct (Href j Hj) as (w & Hw & Hid & Hf).
    eexists. split; [apply list_elem_of_fmap; by exists w |].
    by case_decide.
  - intros j Hj. simpl in Hj. destruct (Href j Hj) as (w & Hw & Hid & Hf).
    eexists. split; [apply list_elem_of_fmap; by exists w |].
    by case_decide.
  - intros j Hj. simpl in Hj. destruct (Href j Hj) as (w & Hw & Hid & Hf).
    eexists. split; [apply list_elem_of_fmap; by exists w |].
    by case_decide.
  - intros j Hj. simpl in Hj. destruct (Href j Hj) as (w & Hw & Hid & Hf).
    eexists. split; [apply list_elem_of_fmap; by exists w |].
    by case_decide.
Qed.

Lemma focus_ref_inv_reachable (s : State) :
  reachable_by well_formed s -> focus_ref_inv s.
Proof.
  induction 1 as [iw ih | s c Hr IH Hg].
  - by intros i Hi.
  - destruct (invariants_reachable s Hr) as [_ Hf].
    by apply focus_ref_inv_exec.
Qed.

(** X17. In the states reached by well-formed commands, the two ways of
    asking for the focused window agree: [getFocusedWindow()] is
    [getWindow(focusedWindowId)], and finds nothing when
    [focusedWindowId] is null. *)
Theorem getFocusedWindow_by_id (s : State) :
  reachable_by well_formed s ->
  getFocusedWindow s
  = match focusedWindowId s with
    | Some i => getWindow i s
    | None => None
    end.
Proof.
  intros Hr. destruct (invariants_reachable s Hr) as [[Hids _ _] [Hfoc _]].
  pose proof (focus_ref_inv_reachable s Hr) as Href.
  destruct (focusedWindowId s) as [i|] eqn:Hfid.
  - destruct (Href i Hfid) as (w & Hw & Hid & Hf).
    apply list_elem_of_lookup in Hw as [k Hk].
    rewrite (getWindow_Some i s k w Hids Hk Hid).
    unfold getFocusedWindow.
    assert (Hfind : list_find (fun w => isFocused w = true) (windows s) = Some (k, w)).
    { apply list_find_Some. split; [done |]. split; [done |].
      intros j y Hj Hlt Hy. assert (j = k); [| lia].
      destruct (Hfoc y (list_elem_of_lookup_2 _ _ _ Hj) Hy) as [Hyid _].
      eapply (NoDup_lookup _ j k i Hids); rewrite list_lookup_fmap.
      - rewrite Hj. simpl. congruence.
      - rewrite Hk. simpl. congruence. }
    by rewrite Hfind.
  - unfold getFocusedWindow.
    assert (Hnone : list_find (fun w => isFocused w = true) (windows s) = None).
    { apply list_find_None. apply Forall_forall. intros w Hw Hf.
      destruct (Hfoc w Hw Hf) as [Hwid _]. congruence. }
    by rewrite Hnone.
Qed.

Lemma getFocusedWindow_by_id_witness :
  getFocusedWindow (run raise_then_close desktop)
  = getWindow "b" (run raise_then_close desktop).
Proof.
  apply (getFocusedWindow_by_id (run raise_then_close desktop)).
  apply reachable_by_run; [apply reachable_init |].
  simpl. repeat split.
  + solve_not_elem.
  + solve_not_elem.
  + solve_elem.
  + intros _ m Hm. vm_compute in Hm. by inversion Hm.
Defined.

End StoreExtras.

(** ** Persistence: what loading keeps *)

Section PersistenceExtras.

Lemma apply_parsed_again (parsed : json) (s s' : Dyn.t) :
  apply_parsed parsed s = inl s' -> apply_parsed parsed s' = inl s'.
Proof.
  unfold apply_parsed. intros Hp.
  repeat case_match; by simplify_eq.
Qed.

(** X18. Loading twice is loading once: whatever the storage holds and
    whatever the state, a second [loadFromLocalStorage] changes neither the
    state nor the storage. *)
Theorem loadFromLocalStorage_idempotent (st : LocalStorage) (s : Dyn.t) :
  let r := loadFromLocalStorage st s in
  loadFromLocalStorage r.2 r.1 = r.
Proof.
  cbv zeta. unfold loadFromLocalStorage, getItem, try_removeItem, removeItem.
  destruct st as [[|] q [[[|]|parsed]|]]; simpl; try done.
  destruct (apply_parsed parsed s) as [s'|s'] eqn:Hp; simpl; [| done].
  by rewrite (apply_parsed_again parsed s s' Hp).
Qed.

(** X19. Loading never changes the z-index counter, the desktop size,
    the focused id or the icon selection, whatever the storage holds. *)
Theorem loadFromLocalStorage_frame (st : LocalStorage) (s : Dyn.t) :
  let r := loadFromLocalStorage st s in
  Dyn.nextZIndex r.1 = Dyn.nextZIndex s
  /\ Dyn.desktopSize r.1 = Dyn.desktopSize s
  /\ Dyn.focusedWindowId r.1 = Dyn.focusedWindowId s
  /\ Dyn.selectedIcons r.1 = Dyn.selectedIcons s.
Proof.
  cbv zeta. unfold loadFromLocalStorage, getItem.
  destruct (available st); [| done].
  destruct (item st) as [[[|]|parsed]|]; try done.
  assert (Hframe : forall s',
            apply_parsed parsed s = inl s' \/ apply_parsed parsed s = inr s' ->
            Dyn.nextZIndex s' = Dyn.nextZIndex s
            /\ Dyn.desktopSize s' = Dyn.desktopSize s
            /\ Dyn.focusedWindowId s' = Dyn.focusedWindowId s
            /\ Dyn.selectedIcons s' = Dyn.selectedIcons s).
  { intros s'. unfold apply_parsed. intros [Hp | Hp];
      repeat case_match; by simplify_eq. }
  destruct (apply_parsed parsed s) as [s'|s'] eqn:Hp; simpl; apply Hframe; auto.
Qed.

Lemma apply_parsed_stateToSave_unknown (s : State) (s0 : Dyn.t) :
  theme s ∉ THEMES ->
  apply_parsed (stateToSave s) s0
  = inl (Dyn.with_windows (Some (JArr (json_of_window <$> windows s)))
           (Dyn.with_iconPositions (Map_entry <$> map_to_list (iconPositions s)) s0)).
Proof.
  intros Hth. unfold apply_parsed, stateToSave.
  change (get_prop "theme" (JObj _)) with (Some (JStr (theme s))).
  change (get_prop "iconPositions" (JObj _))
    with (Some (JArr (json_of_entry <$> map_to_list (iconPositions s)))).
  change (get_prop "windows" (JObj _))
    with (Some (JArr (json_of_window <$> windows s))).
  assert (Hno : THEMES_includes (Some (JStr (theme s))) = false)
    by (by apply bool_decide_eq_false).
  rewrite Hno, andb_false_r. simpl.
  by rewrite new_Map_entries by apply NoDup_fst_map_to_list.
Qed.

(** X20. [setTheme] accepts any theme and saves it at once, but a theme
    outside the known ones does not survive a reload: the loader keeps its
    own theme, while the windows and icon positions saved with it are
    restored. *)
Theorem setTheme_unknown_not_restored (t : string) (s : State)
    (st : LocalStorage) (s0 : Dyn.t) :
  t ∉ THEMES -> available st = true -> quota_exceeded st = false ->
  let after := setTheme t s st in
  let r := loadFromLocalStorage after.2 s0 in
  theme after.1 = t
  /\ Dyn.theme r.1 = Dyn.theme s0
  /\ windows_of_jsval (Dyn.windows r.1) = Some (windows s)
  /\ iconPositions_of_Map (Dyn.iconPositions r.1) = Some (iconPositions s).
Proof.
  intros Ht Ha Hq after r.
  assert (Hafter : after.2
            = mkStorage true false (Some (Serialized (stateToSave (with_theme t s))))).
  { unfold after, setTheme, saveToLocalStorage, setItem. simpl. by rewrite Ha, Hq. }
  unfold r. rewrite Hafter.
  rewrite (loadFromLocalStorage_parsed _ s0 (stateToSave (with_theme t s))) by done.
  rewrite apply_parsed_stateToSave_unknown by done. simpl.
  repeat split.
  - apply mapM_fmap_Some. apply window_of_json_of_window.
  - apply iconPositions_of_Map_entries.
Qed.

Lemma setTheme_unknown_not_restored_witness :
  let after := setTheme "neon" state_AB_icons empty_storage in
  Dyn.theme (loadFromLocalStorage after.2 fresh_state).1 = "dark".
Proof.
  assert (Ht : "neon" ∉ THEMES) by solve_not_elem.
  by destruct (setTheme_unknown_not_restored "neon" state_AB_icons empty_storage
                 fresh_state Ht eq_refl eq_refl) as (_ & H & _).
Defined.

End PersistenceExtras.

(** ** Components: icons, the grid and the app bar *)

Section ComponentExtras.

Local Set Warnings "-clear-no-such-hyp".

Lemma icon_move_step (start orig p : Position) (c0 : DesktopIcon) :
  pressed c0 = Some (start, orig) ->
  let r := icon_handleMouseMove (x p) (y p) c0 in
  pressed r.1 = Some (start, orig)
  /\ appData r.1 = appData c0
  /\ icon_position r.1 = icon_position c0
  /\ _hasDragged r.1 = _hasDragged c0 || beyond_threshold start p
  /\ Forall is_icon_drag r.2
  /\ (_hasDragged r.1 = false -> r.2 = []).
Proof.
  intros Hp. cbv zeta. unfold icon_handleMouseMove. rewrite Hp.
  fold (beyond_threshold start p).
  destruct (_hasDragged c0) eqn:Hd, (beyond_threshold start p); simpl;
    rewrite ?Hd; simpl; repeat split; try done;
    try (intros ?; congruence); repeat constructor.
Qed.

Lemma icon_moves_pressed (samples : list Position) (start orig : Position)
    (c0 : DesktopIcon) (evs : list IconEvent) :
  pressed c0 = Some (start, orig) ->
  let r := foldl (fun acc p =>
                    let r := icon_handleMouseMove (x p) (y p) acc.1 in
                    (r.1, acc.2 ++ r.2))
                 (c0, evs) samples in
  pressed r.1 = Some (start, orig)
  /\ appData r.1 = appData c0
  /\ icon_position r.1 = icon_position c0
  /\ _hasDragged r.1 = _hasDragged c0 || existsb (beyond_threshold start) samples
  /\ (exists drags, r.2 = evs ++ drags /\ Forall is_icon_drag drags
        /\ (_hasDragged r.1 = false -> drags = [])).
Proof.
  revert c0 evs. induction samples as [|p samples IH]; intros c0 evs Hp.
  - simpl. rewrite orb_false_r. repeat split; try done.
    exists []. by rewrite app_nil_r.
  - cbn [foldl existsb fst snd]. cbv zeta.
    destruct (icon_move_step start orig p c0 Hp) as (S1 & S2 & S3 & S4 & S5 & S6).
    cbv zeta in S1, S2, S3, S4, S5, S6.
    set (r1 := icon_handleMouseMove (x p) (y p) c0) in *.
    destruct (IH r1.1 (evs ++ r1.2) S1) as (H1 & H2 & H3 & H4 & drags & H5 & H6 & H7).
    cbv zeta in H1, H2, H3, H4, H5, H7.
    rewrite H1, H2, H3, H4, S2, S3, S4, orb_assoc.
    repeat split; try done.
    exists (r1.2 ++ drags). rewrite H5, <- app_assoc.
    split; [done |]. split; [apply Forall_app; by split |].
    intros Hno. apply orb_false_iff in Hno as [Hno1 Hno2].
    rewrite H7 by (by rewrite H4, S4, Hno1, Hno2).
    rewrite app_nil_r. apply S6. by rewrite S4.
Qed.

(** X21. A press with the left button, any mouse-move samples and a
    release dispatch, at the release, exactly one event: a drop at the
    icon's position moved by the pointer's displacement when some sample
    was more than 5 pixels from the press point along an axis (even if the
    pointer came back), and a launch otherwise.  Before the release only
    drag events are dispatched, none if no sample went that far; after it
    the icon is no longer pressed. *)
Theorem icon_press_move_release (c : DesktopIcon) (x0 y0 x1 y1 : Z)
    (samples : list Position) :
  let moved := icon_moves samples (icon_handleMouseDown 0 x0 y0 c) in
  let released := icon_handleMouseUp x1 y1 moved.1 in
  let far := existsb (beyond_threshold (mkPosition x0 y0)) samples in
  released.2
    = (if far
       then [icon_drop (App.id (appData c))
               {| x := x (icon_position c) + (x1 - x0);
                  y := y (icon_position c) + (y1 - y0) |}]
       else [icon_launch (App.id (appData c)) (appData c)])
  /\ Forall is_icon_drag moved.2
  /\ (far = false -> moved.2 = [])
  /\ pressed released.1 = None
  /\ _hasDragged released.1 = false
  /\ (far = true -> dragging released.1 = false).
Proof.
  cbv zeta. unfold icon_moves.
  set (c0 := icon_handleMouseDown 0 x0 y0 c).
  destruct (icon_moves_pressed samples (mkPosition x0 y0) (icon_position c) c0 []
              eq_refl) as (H1 & H2 & H3 & H4 & drags & H5 & H6 & H7).
  cbv zeta in *. set (r := foldl _ (c0, []) samples) in *.
  simpl in H4, H5. unfold icon_handleMouseUp. rewrite H1, H2, H3, H4, H5.
  simpl. destruct (existsb _ samples) eqn:Hfar; simpl.
  - repeat split; try done.
  - repeat split; try done. rewrite H7; [done |]. by rewrite H4.
Qed.

(** X22. Selecting an icon with the meta key twice gives back the
    selection there was; after any selecting click the icon is selected
    unless the meta key took it out, another icon is selected only if it
    was and the shift or meta key was held, and the icon positions are
    not touched. *)
Theorem icon_select_clicks (appId other : string) (shiftKey shiftKey' metaKey : bool)
    (g : IconsGrid) :
  grid_handleIconSelect appId shiftKey' true (grid_handleIconSelect appId shiftKey true g)
    = g
  /\ (appId ∈ _selectedIcons (grid_handleIconSelect appId shiftKey metaKey g)
      <-> ~ (metaKey = true /\ appId ∈ _selectedIcons g))
  /\ (other <> appId ->
      (other ∈ _selectedIcons (grid_handleIconSelect appId shiftKey metaKey g)
       <-> (shiftKey || metaKey = true /\ other ∈ _selectedIcons g)))
  /\ _iconPositions (grid_handleIconSelect appId shiftKey metaKey g)
     = _iconPositions g.
Proof.
  destruct g as [pos sel]. unfold grid_handleIconSelect. simpl.
  split; [| split; [| split; [| done]]].
  - f_equal. destruct (decide (appId ∈ sel)) as [Hin | Hout].
    + rewrite decide_False by set_solver.
      apply set_eq. intros z. destruct (decide (z = appId)); set_solver.
    + rewrite decide_True by set_solver. set_solver.
  - destruct metaKey, shiftKey; simpl; try case_decide; set_solver.
  - intros Hne. destruct metaKey, shiftKey; simpl; try case_decide; set_solver.
Qed.

Lemma icon_select_clicks_witness :
  "about" ∈ _selectedIcons
              (grid_handleIconSelect "about" false false (mkIconsGrid ∅ {["files"]}))
  /\ ~ "files" ∈ _selectedIcons
              (grid_handleIconSelect "about" false false (mkIconsGrid ∅ {["files"]})).
Proof.
  destruct (icon_select_clicks "about" "files" false false false
              (mkIconsGrid ∅ {["files"]})) as (_ & Hsel & Hother & _).
  split.
  - apply Hsel. by intros [? _].
  - intros Hin. apply Hother in Hin as [Hkey _]; [discriminate Hkey | discriminate].
Defined.

Lemma apply_parsed_stateToSave_icons (s : State) (s0 : Dyn.t) :
  exists s', apply_parsed (stateToSave s) s0 = inl s'
    /\ Dyn.iconPositions s' = Map_entry <$> map_to_list (iconPositions s).
Proof.
  destruct (decide (theme s ∈ THEMES)) as [Hth | Hth].
  - eexists. by rewrite apply_parsed_stateToSave.
  - eexists. by rewrite apply_parsed_stateToSave_unknown.
Qed.

(** X23. Dropping an icon at [p] stores, for that icon, [p] clamped to
    the window less 100 pixels across and 150 down: [x] is
    [max(0, min(p.x, innerWidth - 100))] and [y] is
    [max(0, min(p.y, innerHeight - 150))], so a position in that range is
    stored as it is and nothing negative is stored.  The other icons keep
    the positions the grid had; the store's icon map becomes the grid's
    map, whatever the store held; and when storage accepts the write, a
    reload gives back that map. *)
Theorem icon_drop_stored (appId : string) (p : Position) (innerWidth innerHeight : Z)
    (g : IconsGrid) (s : State) (st : LocalStorage) (s0 : Dyn.t) :
  let r := grid_handleIconDrop appId p innerWidth innerHeight g s st in
  let m := getIconPositions r.1.2 in
  m !! appId = Some {| x := Z.max 0 (Z.min (x p) (innerWidth - 100));
                       y := Z.max 0 (Z.min (y p) (innerHeight - 150)) |}
  /\ (exists c, m !! appId = Some c
       /\ 0 <= x c <= Z.max (innerWidth - 100) 0
       /\ 0 <= y c <= Z.max (innerHeight - 150) 0
       /\ (0 <= x p <= innerWidth - 100 -> x c = x p)
       /\ (0 <= y p <= innerHeight - 150 -> y c = y p))
  /\ (forall other, other <> appId -> m !! other = _iconPositions g !! other)
  /\ _iconPositions r.1.1 = m
  /\ (available st = true -> quota_exceeded st = false ->
      iconPositions_of_Map (Dyn.iconPositions (loadFromLocalStorage r.2 s0).1)
      = Some m).
Proof.
  cbv zeta. unfold grid_handleIconDrop, setIconPositions, getIconPositions. simpl.
  split; [| split; [| split; [| split; [done |]]]].
  - apply lookup_insert_eq.
  - eexists. split; [apply lookup_insert_eq |].
    unfold grid_constrainPosition. simpl. lia.
  - intros other Hne. by apply lookup_insert_ne.
  - intros Ha Hq.
    set (s' := with_iconPositions _ s).
    assert (Hsaved : saveToLocalStorage s' st
              = mkStorage true false (Some (Serialized (stateToSave s')))).
    { unfold saveToLocalStorage, setItem. by rewrite Ha, Hq. }
    rewrite Hsaved.
    rewrite (loadFromLocalStorage_parsed _ s0 (stateToSave s')) by done.
    destruct (apply_parsed_stateToSave_icons s' s0) as (d & -> & Hd).
    simpl. rewrite Hd. apply iconPositions_of_Map_entries.
Qed.

Lemma icon_drop_stored_witness :
  let r := grid_handleIconDrop "about" (mkPosition 5000 (-7)) 1280 800
             (mkIconsGrid ∅ ∅) state_AB_icons empty_storage in
  getIconPositions r.1.2 !! "about" = Some (mkPosition 1180 0)
  /\ iconPositions_of_Map (Dyn.iconPositions (loadFromLocalStorage r.2 fresh_state).1)
     = Some (getIconPositions r.1.2).
Proof.
  destruct (icon_drop_stored "about" (mkPosition 5000 (-7)) 1280 800
              (mkIconsGrid ∅ ∅) state_AB_icons empty_storage fresh_state)
    as (Hstored & _ & _ & _ & Hload).
  split; [exact Hstored | by apply Hload].
Defined.

(** X24. With a positive number of columns and a non-zero icon size, no
    two apps get the same default icon position. *)
Theorem default_icon_positions_distinct (iconSize startX startY columns : option Z)
    (i j : nat) (e1 e2 : string * Position) :
  0 < default 6 columns -> default 100 iconSize <> 0 ->
  getDefaultIconPositions iconSize startX startY columns !! i = Some e1 ->
  getDefaultIconPositions iconSize startX startY columns !! j = Some e2 ->
  i <> j -> e1.2 <> e2.2.
Proof.
  intros Hc Hs H1 H2 Hij Heq. apply Hij.
  unfold getDefaultIconPositions in H1, H2.
  cbv zeta in H1, H2. rewrite list_lookup_imap in H1, H2.
  destruct (APP_REGISTRY !! i); [| done]. destruct (APP_REGISTRY !! j); [| done].
  simpl in H1, H2. inversion H1; subst e1. inversion H2; subst e2.
  simpl in Heq. inversion Heq as [[Hx Hy]].
  set (c := default 6 columns) in *. set (sz := default 100 iconSize) in *.
  assert (Hrem : Z.rem (Z.of_nat i) c = Z.rem (Z.of_nat j) c) by nia.
  assert (Hdiv : Z.of_nat i / c = Z.of_nat j / c) by nia.
  rewrite !Z.rem_mod_nonneg in Hrem by lia.
  pose proof (Z.div_mod (Z.of_nat i) c ltac:(lia)).
  pose proof (Z.div_mod (Z.of_nat j) c ltac:(lia)).
  assert (Z.of_nat i = Z.of_nat j) by congruence. lia.
Qed.

Lemma default_icon_positions_distinct_witness :
  mkPosition 20 120 <> mkPosition 120 20.
Proof.
  apply (default_icon_positions_distinct None None None (Some 2) 2 1
           ("projects", mkPosition 20 120) ("terminal", mkPosition 120 20)
           ltac:(reflexivity) ltac:(discriminate) eq_refl eq_refl ltac:(lia)).
Defined.

Lemma filter_fmap_length {A} (P : A -> Prop) `{!forall a, Decision (P a)}
    (f : A -> A) (l : list A) :
  (forall a, P (f a) <-> P a) ->
  length (filter P (f <$> l)) = length (filter P l).
Proof.
  intros Hf. induction l as [|a l IH]; [done |]. rewrite fmap_cons.
  destruct (decide (P a)) as [Ha | Ha].
  - rewrite (filter_cons_True P (f a)) by (by apply Hf).
    rewrite (filter_cons_True P a) by done. simpl. by rewrite IH.
  - rewrite (filter_cons_False P (f a)) by (by rewrite Hf).
    by rewrite (filter_cons_False P a) by done.
Qed.

(** X25. Launching an app whose component name is not empty leaves one
    window of that component if there was none and as many as there were
    otherwise, so launching again never opens a second one; some window of
    the component is then focused, not minimized and named by
    [focusedWindowId]; and the icon selection is cleared. *)
Theorem icon_launch_single_window (app : App.t) (generated : string)
    (g : IconsGrid) (s : State) :
  App.component app <> "" ->
  let r := grid_handleIconLaunch app generated g s in
  windows_of_component (App.component app) r.2
    = Nat.max (windows_of_component (App.component app) s) 1
  /\ (exists w, w ∈ windows r.2 /\ component w = App.component app
        /\ isFocused w = true /\ isMinimized w = false
        /\ focusedWindowId r.2 = Some (id w))
  /\ _selectedIcons r.1 = ∅.
Proof.
  intros Hc. cbv zeta. unfold grid_handleIconLaunch. simpl.
  split; [| split; [| done]];
    unfold findWindowByComponent;
    destruct (list_find _ (windows s)) as [[k e]|] eqn:Hfind; simpl.
  - apply list_find_Some in Hfind as (Hk & He & _).
    assert (Hfocus : windows_of_component (App.component app) (focusWindow (id e) s)
                     = windows_of_component (App.component app) s).
    { unfold windows_of_component. rewrite windows_focusWindow.
      apply filter_fmap_length. intros w. unfold focus_one. by case_decide. }
    assert (Hge : (1 <= windows_of_component (App.component app) s)%nat).
    { unfold windows_of_component.
      assert (Hin : e ∈ filter (fun w => component w = App.component app) (windows s)).
      { apply list_elem_of_filter. split; [done |]. by eapply list_elem_of_lookup_2. }
      destruct (filter _ (windows s)); [by apply not_elem_of_nil in Hin | simpl; lia]. }
    unfold restoreWindow. destruct (isMinimized e); rewrite Hfocus; lia.
  - apply list_find_None in Hfind.
    unfold windows_of_component. simpl.
    rewrite filter_app, length_app.
    rewrite (filter_fmap_length _ (with_isFocused false)) by done.
    assert (Hzero : filter (fun w => component w = App.component app) (windows s) = []).
    { apply filter_none. intros w Hw. rewrite Forall_forall in Hfind. by apply Hfind. }
    rewrite Hzero. rewrite filter_cons_True.
    + done.
    + simpl. destruct (String.eqb (App.component app) "") eqn:Heq; [| done].
      apply String.eqb_eq in Heq. done.
  - apply list_find_Some in Hfind as (Hk & He & _).
    exists (focus_one (id e) (nextZIndex s) e).
    assert (Hin : focus_one (id e) (nextZIndex s) e ∈ windows (focusWindow (id e) s)).
    { rewrite windows_focusWindow. apply list_elem_of_fmap_2.
      by eapply list_elem_of_lookup_2. }
    assert (Hprops : component (focus_one (id e) (nextZIndex s) e) = App.component app
                     /\ isFocused (focus_one (id e) (nextZIndex s) e) = true
                     /\ isMinimized (focus_one (id e) (nextZIndex s) e) = false
                     /\ Some (id e) = Some (id (focus_one (id e) (nextZIndex s) e))).
    { unfold focus_one. by rewrite decide_True. }
    unfold restoreWindow. by destruct (isMinimized e).
  - exists (defaultWindow (grid_launch_config app) generated s). simpl.
    split; [apply elem_of_app; right; by apply list_elem_of_singleton |].
    split; [| done].
    destruct (String.eqb (App.component app) "") eqn:Heq; [| done].
    apply String.eqb_eq in Heq. done.
Qed.

Lemma icon_launch_single_window_witness :
  windows_of_component "terminal-app"
    (grid_handleIconLaunch
       (App.mk "terminal" "Terminal" "💻" "terminal-app" "utilities" (mkSize 800 600)
          "Open terminal with command line interface" (JObj []))
       "win-9" (mkIconsGrid ∅ ∅) state_AB).2
  = 1%nat.
Proof.
  destruct (icon_launch_single_window
              (App.mk "terminal" "Terminal" "💻" "terminal-app" "utilities"
                 (mkSize 800 600) "Open terminal with command line interface" (JObj []))
              "win-9" (mkIconsGrid ∅ ∅) state_AB) as (H & _); [discriminate |].
  exact H.
Defined.

Lemma minimizeWindow_lookup (i : string) (s : State) (k : nat) (w : Window) :
  windows s !! k = Some w -> id w = i ->
  windows (minimizeWindow i s) !! k
  = Some (with_isFocused false (with_isMinimized true w)).
Proof.
  intros Hk Hid. unfold minimizeWindow.
  set (ws := _updateWindow i _ s).
  assert (Hws : ws !! k = Some (with_isFocused false (with_isMinimized true w))).
  { unfold ws, _updateWindow. rewrite list_lookup_fmap, Hk. simpl.
    by rewrite decide_True. }
  destruct (filter _ (indexed ws)) as [|first rest] eqn:Hv; [done |].
  destruct (reduce_max_elem first rest) as [Hel _].
  destruct (reduce_max (first :: rest) first) as [k' m].
  rewrite <- Hv in Hel. apply list_elem_of_filter in Hel as [Hmin Hel].
  apply indexed_lookup in Hel. simpl in Hmin. simpl. unfold focus_at.
  rewrite list_lookup_alter_ne; [done |].
  intros ->. rewrite Hws in Hel. inversion Hel; subst m. discriminate.
Qed.

(** X26. Clicking the app bar icon of the focused, visible window
    minimizes it; clicking the icon of the window as it then is restores
    it: it is focused and not minimized again, where and as large as it
    was, on top with the counter's value, and named by [focusedWindowId]. *)
Theorem appbar_click_toggles (s : State) (k : nat) (w : Window) :
  NoDup (id <$> windows s) -> windows s !! k = Some w ->
  isFocused w = true -> isMinimized w = false ->
  let s1 := appbar_handleAppClick w s in
  exists w1, getWindow (id w) s1 = Some w1
    /\ isMinimized w1 = true /\ isFocused w1 = false
    /\ let s2 := appbar_handleAppClick w1 s1 in
       exists w2, getWindow (id w) s2 = Some w2
         /\ isFocused w2 = true /\ isMinimized w2 = false
         /\ position w2 = position w /\ size w2 = size w
         /\ zIndex w2 = nextZIndex s
         /\ focusedWindowId s2 = Some (id w).
Proof.
  intros Hnd Hk Hf Hm. cbv zeta.
  assert (Hclick : appbar_handleAppClick w s = minimizeWindow (id w) s)
    by (unfold appbar_handleAppClick; by rewrite Hf, Hm).
  rewrite Hclick.
  set (s1 := minimizeWindow (id w) s).
  set (w1 := with_isFocused false (with_isMinimized true w)).
  assert (Hk1 : windows s1 !! k = Some w1)
    by (by apply minimizeWindow_lookup).
  assert (Hnd1 : NoDup (id <$> windows s1)).
  { unfold s1. by rewrite (minimizeWindow_same id). }
  exists w1. split; [by apply (getWindow_Some _ _ k) |].
  split; [done |]. split; [done |].
  unfold appbar_handleAppClick. simpl. unfold restoreWindow.
  set (w2 := focus_one (id w) (nextZIndex s1) w1).
  assert (Hk2 : windows (focusWindow (id w) s1) !! k = Some w2).
  { rewrite windows_focusWindow, list_lookup_fmap, Hk1. done. }
  assert (Hnd2 : NoDup (id <$> windows (focusWindow (id w) s1))).
  { rewrite windows_focusWindow, fmap_fmap_same; [done |].
    intros v. apply focus_one_id. }
  assert (Hw2 : id w2 = id w /\ isFocused w2 = true /\ isMinimized w2 = false
                /\ position w2 = position w /\ size w2 = size w
                /\ zIndex w2 = nextZIndex s1).
  { unfold w2, focus_one, w1. simpl. by rewrite decide_True. }
  destruct Hw2 as (Hid2 & Hf2 & Hm2 & Hp2 & Hs2 & Hz2).
  exists w2. split; [by apply (getWindow_Some _ _ k) |].
  unfold s1 in Hz2. rewrite nextZIndex_minimizeWindow in Hz2.
  by repeat split.
Qed.

Lemma appbar_click_toggles_witness :
  exists w1, getWindow "A" (appbar_handleAppClick window_A state_AB) = Some w1
    /\ isMinimized w1 = true.
Proof.
  assert (Hnd : NoDup (id <$> windows state_AB)).
  { vm_compute. apply NoDup_cons. split; [solve_not_elem |]. apply NoDup_singleton. }
  destruct (appbar_click_toggles state_AB 0 window_A Hnd eq_refl eq_refl eq_refl)
    as (w1 & H1 & H2 & _).
  by exists w1.
Defined.

Lemma Set_from_spec (values : list string) :
  NoDup (Set_from values) /\ forall v, v ∈ Set_from values <-> v ∈ values.
Proof.
  unfold Set_from. induction values as [|a values [IHnd IHin]] using rev_ind.
  - split; [apply NoDup_nil_2 | done].
  - rewrite foldl_app. simpl.
    set (acc := foldl _ [] values) in *.
    destruct (decide (a ∈ acc)) as [Hin | Hout].
    + split; [done |]. intros v. rewrite elem_of_app, list_elem_of_singleton, IHin.
      split; [tauto |]. intros [? | ->]; [done |]. by apply IHin.
    + split.
      * apply NoDup_app. split; [done |]. split; [| apply NoDup_singleton].
        intros v Hv Hv'. apply list_elem_of_singleton in Hv'. by subst.
      * intros v. by rewrite !elem_of_app, IHin.
Qed.

(** X27. The registry's lookups agree: [appExists(id)] holds exactly when
    [getAppById(id)] finds an app, exactly when [id] is among
    [getAllAppIds()], and the app found has that id; every registered app
    is the one found by its own id and by its own component. *)
Theorem registry_lookups (i : string) :
  (appExists i = true <-> i ∈ getAllAppIds)
  /\ (is_Some (getAppById i) <-> i ∈ getAllAppIds)
  /\ (forall app, getAppById i = Some app -> App.id app = i /\ app ∈ APP_REGISTRY)
  /\ Forall (fun app => getAppById (App.id app) = Some app
                        /\ getAppByComponent (App.component app) = Some app)
            APP_REGISTRY.
Proof.
  split; [| split; [| split]].
  - unfold appExists, getAllAppIds. rewrite bool_decide_eq_true, Exists_exists.
    rewrite list_elem_of_fmap. split.
    + intros (app & Hin & Hid). by exists app.
    + intros (app & Hid & Hin). by exists app.
  - unfold getAppById, getAllAppIds. rewrite list_elem_of_fmap. split.
    + intros [app Happ].
      destruct (list_find _ APP_REGISTRY) as [[k a]|] eqn:Hfind; [| done].
      apply list_find_Some in Hfind as (Hk & Hid & _).
      exists a. split; [done |]. by eapply list_elem_of_lookup_2.
    + intros (app & Hid & Hin).
      destruct (list_find_elem_of (fun a => App.id a = i) APP_REGISTRY app Hin)
        as [[k a] Hfind]; [done |].
      rewrite Hfind. by eexists.
  - intros app Happ. unfold getAppById in Happ.
    destruct (list_find _ APP_REGISTRY) as [[k a]|] eqn:Hfind; [| done].
    simpl in Happ. inversion Happ; subst a.
    apply list_find_Some in Hfind as (Hk & Hid & _).
    split; [done |]. by eapply list_elem_of_lookup_2.
  - unfold APP_REGISTRY. repeat constructor.
Qed.

(** X28. [getAllCategories()] lists each category once, and a category
    is listed exactly when [getAppsByCategory] returns some app for it. *)
Theorem registry_categories (c : string) :
  NoDup getAllCategories
  /\ (c ∈ getAllCategories <-> getAppsByCategory c <> []).
Proof.
  unfold getAllCategories.
  destruct (Set_from_spec (App.category <$> APP_REGISTRY)) as [Hnd Hin].
  split; [done |]. rewrite Hin, list_elem_of_fmap. unfold getAppsByCategory. split.
  - intros (app & Hc & Happ) Hnil.
    assert (Hf : app ∈ filter (fun a => App.category a = c) APP_REGISTRY).
    { apply list_elem_of_filter. by split. }
    rewrite Hnil in Hf. by apply not_elem_of_nil in Hf.
  - intros Hne. destruct (filter _ APP_REGISTRY) as [|app rest] eqn:Hf; [done |].
    assert (Happ : app ∈ filter (fun a => App.category a = c) APP_REGISTRY)
      by (rewrite Hf; by left).
    apply list_elem_of_filter in Happ as [Hc Happ]. by exists app.
Qed.

End ComponentExtras.
